(** * Dembrandt colour core: conversion ([src/lib/colors.js]),
    palette consolidation ([src/lib/display.js], [displayColors]) and the
    colour helpers of the Figma export ([src/lib/figma-exporter.js]).

    Conventions of the embedding.

    - A JavaScript string is a sequence of UTF-16 code units.  It is modelled
      by [string]; every [ascii] stands for one code unit below 256, so the
      development covers the strings whose code units are below 256.
    - A JavaScript number is modelled by [num A]: [NaN], or [Fin x] with
      [x] an exact integer ([A = Z], what [parseInt] produces), an exact
      rational ([A = Q], the alpha channel) or a real ([A = R], the
      colorimetric coordinates).  Binary64 rounding, overflow to [Infinity]
      and the sign of zero are not modelled: arithmetic is exact.
    - [undefined] is [None]. *)

From Stdlib Require Import Bool Ascii String List ZArith QArith Qround.
From Stdlib Require Import Reals Lra Lia Psatz.
Import ListNotations.

Set Implicit Arguments.

Local Open Scope string_scope.
Local Open Scope Z_scope.

(** ** JavaScript numbers *)

Inductive num (A : Type) : Type :=
| NaN : num A
| Fin : A -> num A.

Arguments NaN {A}.
Arguments Fin {A} _.

Definition numMap {A B : Type} (f : A -> B) (x : num A) : num B :=
  match x with
  | NaN => NaN
  | Fin v => Fin (f v)
  end.

(** ** JavaScript strings *)

Module Str.

Definition code (c : ascii) : Z := Z.of_N (N_of_ascii c).

Definition chr (n : Z) : ascii := ascii_of_N (Z.to_N n).

Definition between (lo hi : Z) (c : ascii) : bool :=
  (lo <=? code c) && (code c <=? hi).

(** [\d] of a regular expression without the [u] flag: [0-9]. *)
Definition isDigit (c : ascii) : bool := between 48 57 c.

(** [[\d.]] *)
Definition isDigitOrDot (c : ascii) : bool := isDigit c || (code c =? 46).

(** [\s], and the white space [parseInt] and [parseFloat] trim: TAB, LF, VT,
    FF, CR, SPACE and NBSP are the ones below 256. *)
Definition isSpace (c : ascii) : bool :=
  between 9 13 c || (code c =? 32) || (code c =? 160).

(** The digits [0-9a-fA-F] of the spec's hex grammar. *)
Definition isHexDigit (c : ascii) : bool :=
  isDigit c || between 97 102 c || between 65 70 c.

(** [String.prototype.toLowerCase] on one code unit below 256: [A-Z] and the
    Latin-1 capitals U+00C0..U+00DE other than U+00D7 move up by 32. *)
Definition lowerChar (c : ascii) : ascii :=
  if between 65 90 c || (between 192 222 c && negb (code c =? 215))
  then chr (code c + 32) else c.

Fixpoint toLowerCase (s : string) : string :=
  match s with
  | EmptyString => EmptyString
  | String c t => String (lowerChar c) (toLowerCase t)
  end.

Definition len (s : string) : Z := Z.of_nat (String.length s).

Definition isEmpty (s : string) : bool :=
  match s with
  | EmptyString => true
  | String _ _ => false
  end.

(** [s.startsWith(p)] *)
Fixpoint startsWith (p s : string) : bool :=
  match p, s with
  | EmptyString, _ => true
  | String _ _, EmptyString => false
  | String a p', String b s' => Ascii.eqb a b && startsWith p' s'
  end.

(** [s.slice(i)] for [0 <= i]. *)
Fixpoint drop (n : nat) (s : string) : string :=
  match n, s with
  | O, _ => s
  | S _, EmptyString => EmptyString
  | S k, String _ t => drop k t
  end.

(** [s.slice(i, j)] for [0 <= i <= j]. *)
Definition slice (i j : nat) (s : string) : string := substring i (j - i) s.

(** [s[i]] for an index inside the string (outside it JavaScript gives
    [undefined]; the callers below index strings of known length). *)
Definition at_ (i : nat) (s : string) : string := substring i 1 s.

(** The longest prefix whose code units satisfy [p], and the rest. *)
Fixpoint span (p : ascii -> bool) (s : string) : string * string :=
  match s with
  | EmptyString => (EmptyString, EmptyString)
  | String c t =>
      if p c then let (a, b) := span p t in (String c a, b)
      else (EmptyString, s)
  end.

(** [s.padStart(2, '0')] *)
Definition padStart2 (s : string) : string :=
  match s with
  | EmptyString => "00"
  | String c EmptyString => String "0" s
  | _ => s
  end.

(** [s.split(', ')]: the pieces between the non-overlapping occurrences of
    the two-unit separator, found from the left.  [cur] holds the current
    piece, reversed. *)
Fixpoint splitCommaSpaceFrom (cur : list ascii) (s : string) : list string :=
  match s with
  | EmptyString => [string_of_list_ascii (rev cur)]
  | String c t =>
      match t with
      | String d u =>
          if (code c =? 44) && (code d =? 32)
          then string_of_list_ascii (rev cur) :: splitCommaSpaceFrom [] u
          else splitCommaSpaceFrom (c :: cur) t
      | EmptyString => splitCommaSpaceFrom (c :: cur) t
      end
  end.

Definition splitCommaSpace (s : string) : list string :=
  splitCommaSpaceFrom [] s.

(** [xs.includes(x)] on an array of strings. *)
Definition includes (x : string) (xs : list string) : bool :=
  existsb (String.eqb x) xs.

End Str.

(** ** Number parsing and printing *)

Module Num.

(** Value of a code unit as a digit in some radix up to 36. *)
Definition digitVal (c : ascii) : option Z :=
  if Str.isDigit c then Some (Str.code c - 48)
  else if Str.between 97 122 c then Some (Str.code c - 87)
  else if Str.between 65 90 c then Some (Str.code c - 55)
  else None.

Definition isRadixDigit (radix : Z) (c : ascii) : bool :=
  match digitVal c with
  | Some d => d <? radix
  | None => false
  end.

Fixpoint valueFrom (radix acc : Z) (s : string) : Z :=
  match s with
  | EmptyString => acc
  | String c t =>
      valueFrom radix
        (acc * radix + match digitVal c with Some d => d | None => 0 end) t
  end.

Definition trimStart (s : string) : string := snd (Str.span Str.isSpace s).

(** [parseInt(s, radix)] as ECMAScript defines it; [radix = 0] stands for a
    missing radix.  The result is the exact integer. *)
Definition parseInt (s : string) (radix : Z) : num Z :=
  let trimmed := trimStart s in
  let sign := if Str.startsWith "-" trimmed then -1 else 1 in
  let unsigned :=
    if Str.startsWith "+" trimmed || Str.startsWith "-" trimmed
    then Str.drop 1 trimmed else trimmed in
  if negb (radix =? 0) && ((radix <? 2) || (36 <? radix)) then NaN
  else
    let stripPrefix := (radix =? 0) || (radix =? 16) in
    let hasPrefix :=
      stripPrefix
      && (Str.startsWith "0x" unsigned || Str.startsWith "0X" unsigned) in
    let R := if hasPrefix then 16 else if radix =? 0 then 10 else radix in
    let body := if hasPrefix then Str.drop 2 unsigned else unsigned in
    let digits := fst (Str.span (isRadixDigit R) body) in
    if Str.isEmpty digits then NaN else Fin (sign * valueFrom R 0 digits).

(** [parseFloat(s)] on the strings its only caller passes, runs of digits
    and dots (capture group 4): the longest prefix [digits], [digits.],
    [digits.digits] or [.digits]; [NaN] when there is none. *)
Definition parseFloat (s : string) : num Q :=
  let (ip, rest) := Str.span Str.isDigit (trimStart s) in
  let fp :=
    match rest with
    | String c t => if Str.code c =? 46 then fst (Str.span Str.isDigit t)
                    else EmptyString
    | EmptyString => EmptyString
    end in
  if Str.isEmpty ip && Str.isEmpty fp then NaN
  else Fin (inject_Z (valueFrom 10 0 ip)
            + inject_Z (valueFrom 10 0 fp)
              / inject_Z (10 ^ Z.of_nat (String.length fp)))%Q.

Definition digitChar (d : Z) : ascii :=
  if d <? 10 then Str.chr (48 + d) else Str.chr (87 + d).

Fixpoint digitsOf (fuel : nat) (radix n : Z) (acc : string) : string :=
  match fuel with
  | O => acc
  | S f =>
      let acc' := String (digitChar (n mod radix)) acc in
      if n / radix =? 0 then acc' else digitsOf f radix (n / radix) acc'
  end.

(** Digits of an integer in a radix from 2 to 36, with a minus sign for a
    negative one.  [Z.log2 n + 1] digits always suffice. *)
Definition intToString (radix n : Z) : string :=
  let m := Z.abs n in
  (if n <? 0 then "-" else "")
  ++ digitsOf (S (Z.to_nat (Z.log2 m))) radix m "".

(** [x.toString(16)] on what [parseInt] returns. *)
Definition toString16 (x : num Z) : string :=
  match x with
  | NaN => "NaN"
  | Fin n => intToString 16 n
  end.

(** [`${x}`] on what [parseInt] returns (the exponent form that JavaScript
    switches to from 1e21 on is not modelled). *)
Definition showInt (x : num Z) : string :=
  match x with
  | NaN => "NaN"
  | Fin n => intToString 10 n
  end.

End Num.


(** ** The pattern of [convertColor]

    [/rgba?\((\d+),\s*(\d+),\s*(\d+)(?:,\s*([\d.]+))?\)/], not anchored and
    without flags, as [String.prototype.match] runs it: the leftmost
    position at which the pattern matches, and there the match the
    backtracking matcher finds first.

    Every greedy repetition of the pattern is followed by a code unit outside
    the class it repeats ([\d+] by [,] or [\)], [\s*] by a digit, [[\d.]+] by
    [\)]), and [a?] by [\(]: giving back what a repetition consumed can never
    turn a failure into a match, so the matcher below takes each repetition
    at its longest and backtracks only over the optional alpha group.
    [GrammarFacts.matchHere_sound] and [GrammarFacts.matchHere_exact] below
    check it against the language of the pattern: at a given position there
    is at most one match, and the matcher returns its groups. *)

Module Re.

(** The capture groups 1 to 4; group 4 is [None] when the alpha group took
    no part in the match. *)
Record groups : Type := mkGroups {
  g1 : string;
  g2 : string;
  g3 : string;
  g4 : option string
}.

Definition lit (p s : string) : option string :=
  if Str.startsWith p s then Some (Str.drop (String.length p) s) else None.

(** [x+] for a class [x]: the run and the rest, provided the run is not
    empty. *)
Definition plus (p : ascii -> bool) (s : string) : option (string * string) :=
  let (a, b) := Str.span p s in
  if Str.isEmpty a then None else Some (a, b).

(** [\s*] *)
Definition spaces (s : string) : string := snd (Str.span Str.isSpace s).

(** [(?:,\s*([\d.]+))?\)], the end of the pattern: first with the group,
    then without it. *)
Definition alphaTail (s : string) : option (option string) :=
  let withAlpha :=
    match lit "," s with
    | None => None
    | Some s1 =>
        match plus Str.isDigitOrDot (spaces s1) with
        | None => None
        | Some (al, s2) =>
            match lit ")" s2 with
            | Some _ => Some (Some al)
            | None => None
            end
        end
    end in
  match withAlpha with
  | Some r => Some r
  | None =>
      match lit ")" s with
      | Some _ => Some None
      | None => None
      end
  end.

(** The pattern against a prefix of [s]. *)
Definition matchHere (s : string) : option groups :=
  match lit "rgb" s with
  | None => None
  | Some s =>
  let s := match lit "a" s with Some t => t | None => s end in
  match lit "(" s with
  | None => None
  | Some s =>
  match plus Str.isDigit s with
  | None => None
  | Some (d1, s) =>
  match lit "," s with
  | None => None
  | Some s =>
  match plus Str.isDigit (spaces s) with
  | None => None
  | Some (d2, s) =>
  match lit "," s with
  | None => None
  | Some s =>
  match plus Str.isDigit (spaces s) with
  | None => None
  | Some (d3, s) =>
  match alphaTail s with
  | None => None
  | Some al => Some (mkGroups d1 d2 d3 al)
  end end end end end end end end.

(** [s.match(pattern)]: the groups of the leftmost match, [None] for
    [null]. *)
Fixpoint exec (s : string) : option groups :=
  match matchHere s with
  | Some g => Some g
  | None =>
      match s with
      | EmptyString => None
      | String _ t => exec t
      end
  end.

End Re.

(** ** Arithmetic on [num R]

    The operators and [Math] functions the colour code uses, exact on the
    reals and propagating [NaN].  A quotient by zero and a zero base under a
    negative exponent are [Infinity] in JavaScript; they are [NaN] here and
    are never reached, every divisor of the source being a non-zero constant
    and its only exponent [2.4]. *)

Module Arith.

Local Open Scope R_scope.

Definition jsnum : Type := num R.

Definition lit (x : R) : jsnum := Fin x.

Definition lift2 (f : R -> R -> R) (a b : jsnum) : jsnum :=
  match a, b with
  | Fin x, Fin y => Fin (f x y)
  | _, _ => NaN
  end.

Definition add : jsnum -> jsnum -> jsnum := lift2 Rplus.
Definition sub : jsnum -> jsnum -> jsnum := lift2 Rminus.
Definition mul : jsnum -> jsnum -> jsnum := lift2 Rmult.

Definition div (a b : jsnum) : jsnum :=
  match a, b with
  | Fin x, Fin y => if Req_dec_T y 0 then NaN else Fin (x / y)
  | _, _ => NaN
  end.

(** [a <= b] and [a < b]: false as soon as one side is [NaN]. *)
Definition le (a b : jsnum) : bool :=
  match a, b with
  | Fin x, Fin y => if Rle_dec x y then true else false
  | _, _ => false
  end.

Definition lt (a b : jsnum) : bool :=
  match a, b with
  | Fin x, Fin y => if Rlt_dec x y then true else false
  | _, _ => false
  end.

(** The real cube root, odd in its argument. *)
Definition cbrtR (x : R) : R :=
  match total_order_T x 0 with
  | inleft (left _) => - Rpower (- x) (/ 3)
  | inleft (right _) => 0
  | inright _ => Rpower x (/ 3)
  end.

(** [Math.cbrt] *)
Definition cbrt (a : jsnum) : jsnum := numMap cbrtR a.

(** [Math.sqrt] *)
Definition sqrt (a : jsnum) : jsnum :=
  match a with
  | Fin x => if Rlt_dec x 0 then NaN else Fin (R_sqrt.sqrt x)
  | NaN => NaN
  end.

(** [Math.pow(a, b)] *)
Definition pow (a b : jsnum) : jsnum :=
  match b with
  | NaN => NaN
  | Fin y =>
      if Req_dec_T y 0 then Fin 1
      else
        match a with
        | NaN => NaN
        | Fin x =>
            if Rlt_dec 0 x then Fin (Rpower x y)
            else if Req_dec_T x 0 then (if Rlt_dec 0 y then Fin 0 else NaN)
            else if Req_dec_T (IZR (Zfloor y)) y
                 then Fin (powerRZ x (Zfloor y))
                 else NaN
        end
  end.

(** The angle of the point [(x, y)], in [(-PI, PI]]. *)
Definition atan2R (y x : R) : R :=
  if Rlt_dec 0 x then atan (y / x)
  else if Rlt_dec x 0 then
    (if Rle_dec 0 y then atan (y / x) + PI else atan (y / x) - PI)
  else if Rlt_dec 0 y then PI / 2
  else if Rlt_dec y 0 then - (PI / 2)
  else 0.

(** [Math.atan2(y, x)] *)
Definition atan2 : jsnum -> jsnum -> jsnum := lift2 atan2R.

(** [Math.round]: the nearest integer, a half going up. *)
Definition round (a : jsnum) : jsnum :=
  numMap (fun x => IZR (Zfloor (x + / 2))) a.

Definition ofInt (a : num Z) : jsnum := numMap IZR a.
Definition ofRatio (a : num Q) : jsnum := numMap Q2R a.

End Arith.

Declare Scope js_scope.
Delimit Scope js_scope with js.
Bind Scope js_scope with Arith.jsnum.
Coercion Arith.lit : R >-> Arith.jsnum.

Infix "+" := Arith.add : js_scope.
Infix "-" := Arith.sub : js_scope.
Infix "*" := Arith.mul : js_scope.
Infix "/" := Arith.div : js_scope.
Infix "<=?" := Arith.le : js_scope.
Infix "<?" := Arith.lt : js_scope.

(** ** [src/lib/colors.js] *)

Module Colors.

Import Arith.

Local Open Scope R_scope.
Local Open Scope js_scope.

Record Xyz : Type := mkXyz { xyz_x : jsnum; xyz_y : jsnum; xyz_z : jsnum }.
Record Lab : Type := mkLab { lab_l : jsnum; lab_a : jsnum; lab_b : jsnum }.
Record Oklab : Type := mkOklab { ok_L : jsnum; ok_a : jsnum; ok_b : jsnum }.

(** The objects [{ l, c, h }] that [labToLch] and [oklabToOklch] return. *)
Record Lch : Type := mkLch { lch_l : jsnum; lch_c : jsnum; lch_h : jsnum }.

Definition srgbToLinear (c : jsnum) : jsnum :=
  let c := c / 255 in
  if c <=? 0.04045 then c / 12.92 else pow ((c + 0.055) / 1.055) 2.4.

Definition linearRgbToXyz (r g b : jsnum) : Xyz :=
  {| xyz_x := 0.4124564 * r + 0.3575761 * g + 0.1804375 * b;
     xyz_y := 0.2126729 * r + 0.7151522 * g + 0.0721750 * b;
     xyz_z := 0.0193339 * r + 0.1191920 * g + 0.9503041 * b |}.

Definition xyzToLab (x y z : jsnum) : Lab :=
  let xn : jsnum := 0.95047 in
  let yn : jsnum := 1.00000 in
  let zn : jsnum := 1.08883 in
  let f := fun t : jsnum =>
    if 0.008856 <? t then cbrt t else (903.3 * t + 16) / 116 in
  let fx := f (x / xn) in
  let fy := f (y / yn) in
  let fz := f (z / zn) in
  {| lab_l := 116 * fy - 16;
     lab_a := 500 * (fx - fy);
     lab_b := 200 * (fy - fz) |}.

Definition labToLch (l a b : jsnum) : Lch :=
  let c := sqrt (a * a + b * b) in
  let h := atan2 b a * (180 / PI) in
  let h := if h <? 0 then h + 360 else h in
  {| lch_l := l; lch_c := c; lch_h := h |}.

Definition rgbToLch (r g b : jsnum) : Lch :=
  let lr := srgbToLinear r in
  let lg := srgbToLinear g in
  let lb := srgbToLinear b in
  let xyz := linearRgbToXyz lr lg lb in
  let lab := xyzToLab (xyz_x xyz) (xyz_y xyz) (xyz_z xyz) in
  labToLch (lab_l lab) (lab_a lab) (lab_b lab).

Definition linearRgbToOklab (r g b : jsnum) : Oklab :=
  let l := cbrt (0.4122214708 * r + 0.5363325363 * g + 0.0514459929 * b) in
  let m := cbrt (0.2119034982 * r + 0.6806995451 * g + 0.1073969566 * b) in
  let s := cbrt (0.0883024619 * r + 0.2817188376 * g + 0.6299787005 * b) in
  {| ok_L := 0.2104542553 * l + 0.7936177850 * m - 0.0040720468 * s;
     ok_a := 1.9779984951 * l - 2.4285922050 * m + 0.4505937099 * s;
     ok_b := 0.0259040371 * l + 0.7827717662 * m - 0.8086757660 * s |}.

Definition oklabToOklch (L a b : jsnum) : Lch :=
  let c := sqrt (a * a + b * b) in
  let h := atan2 b a * (180 / PI) in
  let h := if h <? 0 then h + 360 else h in
  {| lch_l := L; lch_c := c; lch_h := h |}.

Definition rgbToOklch (r g b : jsnum) : Lch :=
  let lr := srgbToLinear r in
  let lg := srgbToLinear g in
  let lb := srgbToLinear b in
  let oklab := linearRgbToOklab lr lg lb in
  oklabToOklch (ok_L oklab) (ok_a oklab) (ok_b oklab).

(** An optional alpha as [formatLch], [formatOklch] and [convertColor]
    receive it: [undefined], or a number. *)
Definition Alpha : Type := option (num Q).

(** [alpha !== undefined && alpha < 1] *)
Definition definedBelowOne (alpha : Alpha) : bool :=
  match alpha with
  | Some (Fin q) => negb (Qle_bool 1 q)
  | _ => false
  end.

(** A template literal, by its pieces in order: literal text, and the
    numbers it interpolates.  An interpolated real stays a number, since the
    text [Number::toString] gives a binary64 value has no counterpart on the
    reals; the integer channels are printed by [Num.showInt]. *)
Inductive Piece : Type :=
| Lit : string -> Piece
| Val : jsnum -> Piece.

Definition Text : Type := list Piece.

(** [`${alpha}`] *)
Definition showAlpha (alpha : Alpha) : Piece :=
  match alpha with
  | None => Lit "undefined"
  | Some a => Val (ofRatio a)
  end.

Definition formatLch (lch : Lch) (alpha : Alpha) : Text :=
  let l := round (lch_l lch * 100) / 100 in
  let c := round (lch_c lch * 100) / 100 in
  let h := round (lch_h lch * 100) / 100 in
  if definedBelowOne alpha
  then [Lit "lch("; Val l; Lit "% "; Val c; Lit " "; Val h;
        Lit " / "; showAlpha alpha; Lit ")"]
  else [Lit "lch("; Val l; Lit "% "; Val c; Lit " "; Val h; Lit ")"].

Definition formatOklch (oklch : Lch) (alpha : Alpha) : Text :=
  let l := round (lch_l oklch * 10000) / 100 in
  let c := round (lch_c oklch * 1000) / 1000 in
  let h := round (lch_h oklch * 100) / 100 in
  if definedBelowOne alpha
  then [Lit "oklch("; Val l; Lit "% "; Val c; Lit " "; Val h;
        Lit " / "; showAlpha alpha; Lit ")"]
  else [Lit "oklch("; Val l; Lit "% "; Val c; Lit " "; Val h; Lit ")"].

(** The object [{ r, g, b, a }] of [hexToRgb]; [a] is absent in the 3- and
    6-digit forms. *)
Record Rgba : Type := mkRgba {
  rgba_r : num Z;
  rgba_g : num Z;
  rgba_b : num Z;
  rgba_a : Alpha
}.

Definition hexToRgb (hex : string) : option Rgba :=
  if Str.isEmpty hex || negb (Str.startsWith "#" hex) then None
  else
    let hex := Str.drop 1 hex in
    if Str.len hex =? 3 then
      Some {| rgba_r := Num.parseInt (Str.at_ 0 hex ++ Str.at_ 0 hex) 16;
              rgba_g := Num.parseInt (Str.at_ 1 hex ++ Str.at_ 1 hex) 16;
              rgba_b := Num.parseInt (Str.at_ 2 hex ++ Str.at_ 2 hex) 16;
              rgba_a := None |}
    else if Str.len hex =? 6 then
      Some {| rgba_r := Num.parseInt (Str.slice 0 2 hex) 16;
              rgba_g := Num.parseInt (Str.slice 2 4 hex) 16;
              rgba_b := Num.parseInt (Str.slice 4 6 hex) 16;
              rgba_a := None |}
    else if Str.len hex =? 8 then
      Some {| rgba_r := Num.parseInt (Str.slice 0 2 hex) 16;
              rgba_g := Num.parseInt (Str.slice 2 4 hex) 16;
              rgba_b := Num.parseInt (Str.slice 4 6 hex) 16;
              rgba_a :=
                Some (numMap (fun n => inject_Z n / 255)%Q
                        (Num.parseInt (Str.slice 6 8 hex) 16)) |}
    else None.

(** The record [convertColor] returns. *)
Record Formats : Type := mkFormats {
  hex : string;
  rgb : Text;
  lch : Text;
  oklch : Text;
  hasAlpha : bool
}.

(** The first half of [convertColor]: the channels [r], [g], [b], [a] it
    assigns, from the pattern or else from [hexToRgb]; [None] where
    [convertColor] returns [null]. *)
Definition parseChannels (colorString : string) : option Rgba :=
  match Re.exec colorString with
  | Some rgbaMatch =>
      Some {| rgba_r := Num.parseInt (Re.g1 rgbaMatch) 0;
              rgba_g := Num.parseInt (Re.g2 rgbaMatch) 0;
              rgba_b := Num.parseInt (Re.g3 rgbaMatch) 0;
              rgba_a :=
                match Re.g4 rgbaMatch with
                | Some s => if Str.isEmpty s then None
                            else Some (Num.parseFloat s)
                | None => None
                end |}
  | None => hexToRgb colorString
  end.

(** The [hex] template of [convertColor], before [toLowerCase]. *)
Definition hexString (r g b : num Z) : string :=
  "#" ++ Str.padStart2 (Num.toString16 r)
      ++ Str.padStart2 (Num.toString16 g)
      ++ Str.padStart2 (Num.toString16 b).

(** The [hex] field of the record, from the channels. *)
Definition hexOfChannels (ch : Rgba) : string :=
  Str.toLowerCase (hexString (rgba_r ch) (rgba_g ch) (rgba_b ch)).

Definition convertColor (colorString : string) : option Formats :=
  match parseChannels colorString with
  | None => None
  | Some (mkRgba r g b a) =>
      let hex := hexString r g b in
      let rgbStr :=
        match a with
        | Some _ =>
            [Lit "rgba("; Lit (Num.showInt r); Lit ", "; Lit (Num.showInt g);
             Lit ", "; Lit (Num.showInt b); Lit ", "; showAlpha a; Lit ")"]
        | None =>
            [Lit "rgb("; Lit (Num.showInt r); Lit ", "; Lit (Num.showInt g);
             Lit ", "; Lit (Num.showInt b); Lit ")"]
        end in
      let lchValues := rgbToLch (ofInt r) (ofInt g) (ofInt b) in
      let oklchValues := rgbToOklch (ofInt r) (ofInt g) (ofInt b) in
      Some {| hex := Str.toLowerCase hex;
              rgb := rgbStr;
              lch := formatLch lchValues a;
              oklch := formatOklch oklchValues a;
              hasAlpha := definedBelowOne a |}
  end.

End Colors.

(** ** [src/lib/display.js]: the palette of [displayColors] *)

Module Display.

Definition normalizeColorFormat (colorString : string) : Colors.Formats :=
  match Colors.convertColor colorString with
  | Some converted => converted
  | None =>
      {| Colors.hex := colorString;
         Colors.rgb := [Colors.Lit colorString];
         Colors.lch := [Colors.Lit colorString];
         Colors.oklch := [Colors.Lit colorString];
         Colors.hasAlpha := false |}
  end.

(** The values of [confidence]: ['high'], ['medium'], ['low']. *)
Inductive Confidence : Type := high | medium | low.

(** The values of [type]: ['semantic'], ['variable'], ['palette']. *)
Inductive Source : Type := semantic | variable | palette.

(** An element of [allColors]. *)
Record Color : Type := mkColor {
  hex : string;
  rgb : Colors.Text;
  lch : Colors.Text;
  oklch : Colors.Text;
  hasAlpha : bool;
  label : string;
  type : Source;
  confidence : Confidence
}.

Definition setLabel (s : string) (c : Color) : Color :=
  mkColor (hex c) (rgb c) (lch c) (oklch c) (hasAlpha c) s (type c)
    (confidence c).

Definition setConfidence (k : Confidence) (c : Color) : Color :=
  mkColor (hex c) (rgb c) (lch c) (oklch c) (hasAlpha c) (label c) (type c) k.

(** [const confidenceOrder = { high: 3, medium: 2, low: 1 }] *)
Definition confidenceOrder (k : Confidence) : Z :=
  match k with
  | high => 3
  | medium => 2
  | low => 1
  end.

(** [colorMap], a [Map] from strings to colours.  A [Map] iterates in the
    order its keys were first set, and setting a key it holds keeps the
    key's place: an association list with at most one pair per key, new keys
    going to the end. *)
Definition ColorMap : Type := list (string * Color).

Fixpoint get (key : string) (m : ColorMap) : option Color :=
  match m with
  | [] => None
  | (k, v) :: rest => if String.eqb k key then Some v else get key rest
  end.

Definition has (key : string) (m : ColorMap) : bool :=
  match get key m with
  | Some _ => true
  | None => false
  end.

Fixpoint set (key : string) (v : Color) (m : ColorMap) : ColorMap :=
  match m with
  | [] => [(key, v)]
  | (k, w) :: rest =>
      if String.eqb k key then (k, v) :: rest else (k, w) :: set key v rest
  end.

(** [Array.from(m.values())] *)
Definition values (m : ColorMap) : list Color := map snd m.

(** A string is truthy when it is not empty. *)
Definition truthy (s : string) : bool := negb (Str.isEmpty s).

(** The label of [existing] once the branch "Merge labels" has run for the
    incoming [color]. *)
Definition mergeLabels (existing color : Color) : string :=
  if truthy (label color) && negb (truthy (label existing)) then label color
  else if truthy (label color) && truthy (label existing) then
    let existingLabels := Str.splitCommaSpace (label existing) in
    if negb (Str.includes (label color) existingLabels)
    then label existing ++ ", " ++ label color
    else label existing
  else label existing.

(** The confidence of [existing] once the branch "Keep highest confidence"
    has run for the incoming [color]. *)
Definition mergeConfidence (existing color : Color) : Confidence :=
  if confidenceOrder (confidence color) >? confidenceOrder (confidence existing)
  then confidence color
  else confidence existing.

(** The body of [allColors.forEach(color => ...)].  The object [existing] is
    the one the map holds, so assigning to its fields changes the map's value
    in place; a new key stores a copy [{ ...color }] of the colour. *)
Definition visit (colorMap : ColorMap) (color : Color) : ColorMap :=
  let key := Str.toLowerCase (hex color) in
  if has key colorMap then
    match get key colorMap with
    | Some existing =>
        let existing := setLabel (mergeLabels existing color) existing in
        let existing :=
          setConfidence (mergeConfidence existing color) existing in
        set key existing colorMap
    | None => colorMap
    end
  else set key color colorMap.

(** [colorMap] after [allColors.forEach]. *)
Definition dedupe (allColors : list Color) : ColorMap :=
  fold_left visit allColors [].

(** [uniqueColors] *)
Definition uniqueColors (allColors : list Color) : list Color :=
  values (dedupe allColors).

(** *** Notions used to state the properties of the pass *)

(** The key of a colour. *)
Definition keyOf (c : Color) : string := Str.toLowerCase (hex c).

(** [Array.from(m.keys())] *)
Definition keys (m : ColorMap) : list string := map fst m.

Definition mem (k : string) (ks : list string) : bool :=
  existsb (String.eqb k) ks.

(** The entry that [visit] leaves for an incoming colour whose key the map
    already holds. *)
Definition merged (existing color : Color) : Color :=
  setConfidence (mergeConfidence existing color)
    (setLabel (mergeLabels existing color) existing).

(** Every value sits under its own lowercase hex, and no key occurs twice. *)
Definition wellKeyed (m : ColorMap) : Prop :=
  NoDup (keys m) /\ Forall (fun kv => fst kv = keyOf (snd kv)) m.

(** The fields of an entry that a collision leaves alone. *)
Definition sameColour (e c : Color) : Prop :=
  hex e = hex c /\ rgb e = rgb c /\ lch e = lch c /\ oklch e = oklch c
  /\ hasAlpha e = hasAlpha c /\ type e = type c.

(** Two colours with one key, for the examples below. *)
Definition red1 : Color :=
  mkColor "#FF0000" [Colors.Lit "rgb(255, 0, 0)"]
    [Colors.Lit "lch(53.24% 104.55 40)"]
    [Colors.Lit "oklch(62.8% 0.258 29.23)"] false "Primary" semantic medium.

Definition red2 : Color :=
  mkColor "#ff0000" [Colors.Lit "rgb(255,0,0)"]
    [Colors.Lit "lch(53.2% 104.6 40)"]
    [Colors.Lit "oklch(62.8% 0.26 29.2)"] false "Accent" palette high.

End Display.

(** ** The specification's side

    Definitions that follow the words of the specification, to compare with
    the code above. *)

Module Spec.

(** *** Section 4.1: the accepted grammars *)

(** ['#'] followed by 3, 6 or 8 hexadecimal digits. *)
Definition hexGrammar (s : string) : bool :=
  match s with
  | EmptyString => false
  | String c ds =>
      (Str.code c =? 35)
      && ((Str.len ds =? 3) || (Str.len ds =? 6) || (Str.len ds =? 8))
      && forallb Str.isHexDigit (list_ascii_of_string ds)
  end.

Definition all (p : ascii -> bool) (s : string) : Prop :=
  forallb p (list_ascii_of_string s) = true.

Definition some (p : ascii -> bool) (s : string) : Prop :=
  s <> EmptyString /\ all p s.

(** The optional alpha argument [tail] and its text [alpha]: nothing, or a
    comma, white space and a run of digits and dots. *)
Definition tailForm (tail : string) (alpha : option string) : Prop :=
  (tail = "" /\ alpha = None)
  \/ exists w3 al, tail = "," ++ w3 ++ al
                   /\ all Str.isSpace w3 /\ some Str.isDigitOrDot al
                   /\ alpha = Some al.

(** [s] is [rgb(r,g,b)] or [rgba(r,g,b,a)] with the channel texts [d1], [d2],
    [d3] and the alpha text [alpha], read as generously as the pattern of
    [convertColor] allows: white space may follow a comma, either name takes
    three or four arguments, and an alpha is any run of digits and dots. *)
Definition rgbMatch (s d1 d2 d3 : string) (alpha : option string) : Prop :=
  exists (name w1 w2 tail : string),
    s = name ++ "(" ++ d1 ++ "," ++ w1 ++ d2 ++ "," ++ w2 ++ d3 ++ tail ++ ")"
    /\ (name = "rgb" \/ name = "rgba")
    /\ some Str.isDigit d1 /\ all Str.isSpace w1
    /\ some Str.isDigit d2 /\ all Str.isSpace w2
    /\ some Str.isDigit d3
    /\ tailForm tail alpha.

(** The [rgb()]/[rgba()] grammar. *)
Definition rgbGrammar (s : string) : Prop :=
  exists d1 d2 d3 alpha, rgbMatch s d1 d2 d3 alpha.

(** Some part of [s] is in the [rgb()]/[rgba()] grammar. *)
Definition containsRgb (s : string) : Prop :=
  exists before m after, s = before ++ m ++ after /\ rgbGrammar m.

(** ['#'] followed by exactly 6 hexadecimal digits. *)
Definition sixDigitHex (s : string) : bool :=
  match s with
  | EmptyString => false
  | String c ds =>
      (Str.code c =? 35) && (Str.len ds =? 6)
      && forallb Str.isHexDigit (list_ascii_of_string ds)
  end.

(** A channel that is an integer from 0 to 255. *)
Definition byteChannel (n : num Z) : bool :=
  match n with
  | Fin v => (0 <=? v) && (v <=? 255)
  | NaN => false
  end.


(** *** Section 4.2: [rgbToLch] as a composition over the reals *)

Local Open Scope R_scope.

(** Normalisation to 0..1 and the piecewise sRGB decoding. *)
Definition decode (channel : R) : R :=
  let c := channel / 255 in
  if Rle_dec c 0.04045 then c / 12.92
  else Rpower ((c + 0.055) / 1.055) 2.4.

(** The D65 matrix from linear RGB to CIE XYZ, by rows. *)
Definition D65 : list (list R) :=
  [ [0.4124564; 0.3575761; 0.1804375];
    [0.2126729; 0.7151522; 0.0721750];
    [0.0193339; 0.1191920; 0.9503041] ].

Fixpoint dot (u v : list R) : R :=
  match u, v with
  | a :: u', b :: v' => a * b + dot u' v'
  | _, _ => 0
  end.

Definition apply (m : list (list R)) (v : list R) : list R :=
  map (fun row => dot row v) m.

(** The D65 reference white. *)
Definition Xn : R := 0.95047.
Definition Yn : R := 1.0.
Definition Zn : R := 1.08883.

Definition f (t : R) : R :=
  if Rlt_dec 0.008856 t then Arith.cbrtR t else (903.3 * t + 16) / 116.

(** CIE 1976 L*, a*, b* of a tristimulus. *)
Definition lab (xyz : list R) : R * R * R :=
  match xyz with
  | [x; y; z] =>
      (116 * f (y / Yn) - 16,
       500 * (f (x / Xn) - f (y / Yn)),
       200 * (f (y / Yn) - f (z / Zn)))
  | _ => (0, 0, 0)
  end.

Definition chroma (a b : R) : R := sqrt (a * a + b * b).

(** The angle [atan2(b, a)] in degrees, brought into [[0, 360)] by a whole
    number of turns. *)
Definition hue (a b : R) : R :=
  let d := Arith.atan2R b a * 180 / PI in
  d - 360 * IZR (Zfloor (d / 360)).

Definition rgbToLch (r g b : R) : R * R * R :=
  let '(L, a, b) := lab (apply D65 [decode r; decode g; decode b]) in
  (L, chroma a b, hue a b).

(** Section 8: a coordinate within [eps] of 0. *)
Definition within (eps : R) (x : Arith.jsnum) : Prop :=
  match x with
  | Fin v => Rabs (v - 0) <= eps
  | NaN => False
  end.

(** *** Section 4.3: rounding to decimal places *)




Local Close Scope R_scope.


(** *** Section 4.4: labels and first-occurrence order *)

(** [xs.join(', ')] *)
Definition joinCommaSpace (xs : list string) : string :=
  match xs with
  | [] => ""
  | x :: rest => fold_left (fun acc y => acc ++ ", " ++ y) rest x
  end.


(** The distinct elements of a list, each at the place of its first
    occurrence. *)
Fixpoint firstOccurrences (ks : list string) : list string :=
  match ks with
  | [] => []
  | k :: rest =>
      k :: filter (fun x => negb (String.eqb x k)) (firstOccurrences rest)
  end.

(** [max] under [high(3) > medium(2) > low(1)], the first argument on a
    tie. *)
Definition maxConfidence (existing incoming : Display.Confidence)
  : Display.Confidence :=
  match existing, incoming with
  | Display.high, _ => Display.high
  | _, Display.high => Display.high
  | Display.medium, _ => Display.medium
  | _, Display.medium => Display.medium
  | Display.low, Display.low => Display.low
  end.

End Spec.

(** ** Notions used in the proofs *)

Module Checks.

(** A string at which a run of [p] must stop. *)
Definition stops (p : ascii -> bool) (s : string) : Prop :=
  match s with
  | EmptyString => True
  | String c _ => p c = false
  end.

Definition hexDigits : list ascii :=
  list_ascii_of_string "0123456789abcdefABCDEF".

(** The byte [v] prints, padded, as two lowercase hexadecimal digits. *)
Definition byteOk (v : Z) : bool :=
  match Str.padStart2 (Num.toString16 (Fin v)) with
  | String a (String b EmptyString) =>
      Str.isHexDigit a && Str.isHexDigit b
      && Ascii.eqb (Str.lowerChar a) a && Ascii.eqb (Str.lowerChar b) b
  | _ => false
  end.

End Checks.

(** ** [src/lib/display.js]: how [displayColors] fills [allColors] *)

Module DisplayInput.

Import Display.

(** A value of [colors.cssVariables]: a bare string, or an object
    [{ value, lch, oklch }] whose fields may be missing. *)
Inductive VarData : Type :=
| VarString : string -> VarData
| VarObject : option string -> option string -> option string -> VarData.

(** An element of [colors.palette]. *)
Record PaletteColor : Type := mkPaletteColor {
  p_color : string;
  p_confidence : Confidence;
  p_lch : option string;
  p_oklch : option string
}.

(** The argument of [displayColors].  The two objects are given by their
    entries, in the order of [Object.entries]; a role of [semantic] may hold
    [null]. *)
Record Colors : Type := mkColors {
  c_semantic : option (list (string * option string));
  c_cssVariables : option (list (string * VarData));
  c_palette : option (list PaletteColor)
}.

(** [pre || computed] on a precomputed text that may be missing or empty. *)
Definition orElse (pre : option string) (computed : Colors.Text)
  : Colors.Text :=
  match pre with
  | Some t => if truthy t then [Colors.Lit t] else computed
  | None => computed
  end.

(** The entries [semantic] contributes: those with a truthy colour. *)
Definition semanticColors (colors : Colors) : list Color :=
  match c_semantic colors with
  | None => []
  | Some entries =>
      flat_map
        (fun entry : string * option string =>
           match snd entry with
           | None => []
           | Some color =>
               if truthy color then
                 let formats := normalizeColorFormat color in
                 [mkColor (Colors.hex formats) (Colors.rgb formats)
                    (Colors.lch formats) (Colors.oklch formats)
                    (Colors.hasAlpha formats) (fst entry) semantic high]
               else []
           end)
        entries
  end.

(** [typeof varData === 'string' ? varData : varData.value] *)
Definition colorValue (varData : VarData) : option string :=
  match varData with
  | VarString s => Some s
  | VarObject value _ _ => value
  end.

Definition precomputedLch (varData : VarData) : option string :=
  match varData with
  | VarString _ => None
  | VarObject _ lch _ => lch
  end.

Definition precomputedOklch (varData : VarData) : option string :=
  match varData with
  | VarString _ => None
  | VarObject _ _ oklch => oklch
  end.

(** The entries [cssVariables] contributes: the first 15, less those whose
    value is missing ([normalizeColorFormat] throws on [undefined], and the
    [catch] skips the entry). *)
Definition variableColors (colors : Colors) : list Color :=
  match c_cssVariables colors with
  | None => []
  | Some entries =>
      flat_map
        (fun entry : string * VarData =>
           match colorValue (snd entry) with
           | None => []
           | Some value =>
               let formats := normalizeColorFormat value in
               [mkColor (Colors.hex formats) (Colors.rgb formats)
                  (orElse (precomputedLch (snd entry)) (Colors.lch formats))
                  (orElse (precomputedOklch (snd entry))
                     (Colors.oklch formats))
                  (Colors.hasAlpha formats) (fst entry) variable high]
           end)
        (firstn 15 entries)
  end.

Definition highOrMedium (k : Confidence) : bool :=
  match k with
  | high | medium => true
  | low => false
  end.

(** The entries [palette] contributes: the first 20 of high or medium
    confidence. *)
Definition paletteColors (colors : Colors) : list Color :=
  match c_palette colors with
  | None => []
  | Some entries =>
      map
        (fun c : PaletteColor =>
           let formats := normalizeColorFormat (p_color c) in
           mkColor (Colors.hex formats) (Colors.rgb formats)
             (orElse (p_lch c) (Colors.lch formats))
             (orElse (p_oklch c) (Colors.oklch formats))
             (Colors.hasAlpha formats) "" palette (p_confidence c))
        (firstn 20 (filter (fun c => highOrMedium (p_confidence c)) entries))
  end.

(** [allColors] before the deduplication. *)
Definition allColors (colors : Colors) : list Color :=
  (semanticColors colors ++ variableColors colors ++ paletteColors colors)%list.

(** The colours [displayColors] prints. *)
Definition displayedColors (colors : Colors) : list Color :=
  uniqueColors (allColors colors).

(** An argument for the examples below: a semantic colour and a palette
    colour with one key, neither in a grammar of [convertColor]. *)
Definition sampleColors : Colors :=
  mkColors (Some [("primary", Some "tomato")]) None
    (Some [mkPaletteColor "Tomato" medium None None]).

(** [remaining], the number behind the line "+N more in JSON". *)
Definition remaining (colors : Colors) : Z :=
  (match c_cssVariables colors with
   | Some entries => Z.max 0 (Z.of_nat (length entries) - 15)
   | None => 0
   end
   + match c_palette colors with
     | Some entries => Z.max 0 (Z.of_nat (length entries) - 20)
     | None => 0
     end)%Z.

End DisplayInput.

(** ** [src/lib/display.js]: the branches of the printed tree

    Each line of a section starts with a branch: the closing one, or the one
    that continues.  A line is given by [isLast], [true] for the closing
    branch; [n] is the length of the filtered array. *)

Module Tree.

(** [displayShadows]: the lines of [sorted.slice(0, 8)], then the line
    "+N more". *)
Definition shadowLines (n : nat) : list bool :=
  (map (fun index => (index =? Nat.min n 8 - 1)%nat && (n <=? 8)%nat)
       (seq 0 (Nat.min n 8))
   ++ if (8 <? n)%nat then [true] else [])%list.

(** [displayBorders]: the lines of [highConfCombos.slice(0, 10)], then the
    line "+N more". *)
Definition borderLines (n : nat) : list bool :=
  (map (fun index => (index =? Nat.min n 10 - 1)%nat) (seq 0 (Nat.min n 10))
   ++ if (10 <? n)%nat then [true] else [])%list.

End Tree.

(** ** [src/lib/figma-exporter.js] *)

Module Figma.

(** The object [{ r, g, b }] of [hexToFigmaRgb]. *)
Record Rgb : Type := mkRgb { f_r : num Q; f_g : num Q; f_b : num Q }.

(** [s.replace('#', '')]: the first ['#'] goes. *)
Fixpoint removeHash (s : string) : string :=
  match s with
  | EmptyString => EmptyString
  | String c t => if Str.code c =? 35 then t else String c (removeHash t)
  end.

Definition hexToFigmaRgb (hex : string) : Rgb :=
  let cleanHex := removeHash hex in
  let over255 := numMap (fun n => inject_Z n / 255)%Q in
  {| f_r := over255 (Num.parseInt (Str.slice 0 2 cleanHex) 16);
     f_g := over255 (Num.parseInt (Str.slice 2 4 cleanHex) 16);
     f_b := over255 (Num.parseInt (Str.slice 4 6 cleanHex) 16) |}.

(** [/rgba?\((\d+),\s*(\d+),\s*(\d+)/] against a prefix of [s]: the pattern
    of [convertColor] without its end. *)
Definition rgbaHere (s : string) : option (string * string * string) :=
  match Re.lit "rgb" s with
  | None => None
  | Some s =>
  let s := match Re.lit "a" s with Some t => t | None => s end in
  match Re.lit "(" s with
  | None => None
  | Some s =>
  match Re.plus Str.isDigit s with
  | None => None
  | Some (d1, s) =>
  match Re.lit "," s with
  | None => None
  | Some s =>
  match Re.plus Str.isDigit (Re.spaces s) with
  | None => None
  | Some (d2, s) =>
  match Re.lit "," s with
  | None => None
  | Some s =>
  match Re.plus Str.isDigit (Re.spaces s) with
  | None => None
  | Some (d3, _) => Some (d1, d2, d3)
  end end end end end end end.

(** [color.match(...)]: the three groups of the leftmost match, [None] for
    [null]. *)
Fixpoint rgbaMatch (s : string) : option (string * string * string) :=
  match rgbaHere s with
  | Some g => Some g
  | None =>
      match s with
      | EmptyString => None
      | String _ t => rgbaMatch t
      end
  end.

Definition anyColorToHex (color : string) : string :=
  if Str.startsWith "#" color then color
  else
    match rgbaMatch color with
    | Some (d1, d2, d3) =>
        let r := Str.padStart2 (Num.toString16 (Num.parseInt d1 0)) in
        let g := Str.padStart2 (Num.toString16 (Num.parseInt d2 0)) in
        let b := Str.padStart2 (Num.toString16 (Num.parseInt d3 0)) in
        "#" ++ r ++ g ++ b
    | None => color
    end.



(** A font weight as [mapFontWeightToStyle] receives it: a string or a
    number (an integer or [NaN]). *)
Inductive Weight : Type :=
| WString : string -> Weight
| WNumber : num Z -> Weight.

(** [weightMap[k]], [None] for a missing key. *)
Definition weightMap (k : num Z) : option string :=
  match k with
  | Fin 100 => Some "Thin"
  | Fin 200 => Some "Extra Light"
  | Fin 300 => Some "Light"
  | Fin 400 => Some "Regular"
  | Fin 500 => Some "Medium"
  | Fin 600 => Some "Semi Bold"
  | Fin 700 => Some "Bold"
  | Fin 800 => Some "Extra Bold"
  | Fin 900 => Some "Black"
  | _ => None
  end.

Definition mapFontWeightToStyle (weight : Weight) : string :=
  let numericWeight :=
    match weight with
    | WString s => Num.parseInt s 0
    | WNumber n => n
    end in
  match weightMap numericWeight with
  | Some name => name
  | None => "Regular"
  end.

(** [parseInt(style.fontWeight) || 400] of [transformToFigmaFormat], on a
    string. *)
Definition fontWeightOr400 (fontWeight : string) : num Z :=
  match Num.parseInt fontWeight 0 with
  | NaN => Fin 400
  | Fin 0 => Fin 400
  | Fin n => Fin n
  end.

End Figma.

(** ** Notions used to state the further properties *)

Module Expect.

(** The six-digit form of a string of the hex grammar: the digits of the
    3-digit form doubled, the alpha digits of the 8-digit form dropped. *)
Definition sixDigitForm (s : string) : string :=
  match s with
  | String h (String a (String b (String c EmptyString))) =>
      String h (String a (String a (String b (String b
        (String c (String c EmptyString))))))
  | _ => substring 0 7 s
  end.



(** The byte [v] prints, padded, as two digits that [parseInt] reads back
    as [v]. *)
Definition byteBack (v : Z) : bool :=
  match Str.padStart2 (Num.toString16 (Fin v)) with
  | String a (String b EmptyString) =>
      match Num.parseInt (String a (String b EmptyString)) 16 with
      | Fin w => w =? v
      | NaN => false
      end
  | _ => false
  end.

(** The alpha [v / 255] of a byte is below 1 unless the byte prints as
    ["ff"]. *)
Definition alphaByte (v : Z) : bool :=
  Bool.eqb (Colors.definedBelowOne (Some (Fin (inject_Z v / 255)%Q)))
           (negb (String.eqb (Str.padStart2 (Num.toString16 (Fin v))) "ff")).


(** The separator [", "] occurs in [s]. *)
Fixpoint hasCommaSpace (s : string) : bool :=
  match s with
  | EmptyString => false
  | String _ t => Str.startsWith ", " s || hasCommaSpace t
  end.

(** The labels that the colours of key [k] bring, in their order: the empty
    ones left out, each label once. *)
Definition labelsOf (k : string) (l : list Display.Color) : list string :=
  Spec.firstOccurrences
    (filter Display.truthy
       (map Display.label
          (filter (fun c => String.eqb (Display.keyOf c) k) l))).

(** Some colour of [cs] has the key [k]. *)
Definition hasKey (k : string) (cs : list Display.Color) : Prop :=
  exists c, In c cs /\ Display.keyOf c = k.

(** The elements of an optional array, none when it is missing. *)
Definition elements {A : Type} (o : option (list A)) : list A :=
  match o with
  | Some l => l
  | None => []
  end.

End Expect.

(** * Properties *)

Unset Implicit Arguments.

(** ** Strings *)

Module StrFacts.

Lemma append_assoc (a b c : string) : (a ++ b) ++ c = a ++ (b ++ c).
Proof. induction a as [| x a IH]; simpl; [reflexivity | now rewrite IH]. Qed.

Lemma append_empty_r (a : string) : a ++ "" = a.
Proof. induction a as [| x a IH]; simpl; [reflexivity | now rewrite IH]. Qed.

Lemma code_inj c d : Str.code c = Str.code d -> c = d.
Proof.
  unfold Str.code. intros H. apply Znat.N2Z.inj in H.
  rewrite <- (ascii_N_embedding c), <- (ascii_N_embedding d). now rewrite H.
Qed.

Lemma code_eqb c (n : Z) : (Str.code c =? n)%Z = true -> c = Str.chr n.
Proof.
  intros H. apply Z.eqb_eq in H. subst n. unfold Str.chr, Str.code.
  now rewrite Znat.N2Z.id, ascii_N_embedding.
Qed.

End StrFacts.

(** ** The pattern and the grammars *)

Module GrammarFacts.

Import StrFacts.

Lemma all_nil p : Spec.all p "".
Proof. reflexivity. Qed.

Lemma all_cons p c s : Spec.all p (String c s) <-> p c = true /\ Spec.all p s.
Proof. unfold Spec.all. simpl. now rewrite andb_true_iff. Qed.

Lemma startsWith_spec p : forall s,
  Str.startsWith p s = true <-> exists t, s = p ++ t.
Proof.
  induction p as [| a p IH]; intros s; simpl.
  - split; [intros _; now exists s | reflexivity].
  - destruct s as [| b s].
    + split; [discriminate | intros [t Ht]; discriminate Ht].
    + rewrite andb_true_iff, IH. split.
      * intros [Hab [t Ht]]. apply Ascii.eqb_eq in Hab. subst. now exists t.
      * intros [t Ht]. inversion Ht; subst. split; [apply Ascii.eqb_refl | now exists t].
Qed.

Lemma drop_append p : forall t, Str.drop (String.length p) (p ++ t) = t.
Proof. induction p as [| a p IH]; intros t; simpl; [reflexivity | apply IH]. Qed.

Lemma lit_spec p s t : Re.lit p s = Some t <-> s = p ++ t.
Proof.
  unfold Re.lit. destruct (Str.startsWith p s) eqn:E.
  - apply startsWith_spec in E. destruct E as [u ->]. rewrite drop_append.
    split; intros H.
    + now inversion H.
    + f_equal. revert H. clear. induction p; simpl; intros H; [assumption|].
      inversion H. auto.
  - split; [discriminate|]. intros ->.
    assert (Str.startsWith p (p ++ t) = true) by (apply startsWith_spec; now exists t).
    congruence.
Qed.

Lemma lit_None p s : Re.lit p s = None <-> ~ exists t, s = p ++ t.
Proof.
  split.
  - intros H [t Ht]. apply lit_spec in Ht. congruence.
  - intros H. destruct (Re.lit p s) as [t|] eqn:E; [| reflexivity].
    exfalso. apply H. exists t. now apply lit_spec.
Qed.

Lemma span_spec p s :
  s = fst (Str.span p s) ++ snd (Str.span p s)
  /\ Spec.all p (fst (Str.span p s))
  /\ Checks.stops p (snd (Str.span p s)).
Proof.
  induction s as [| c s IH]; simpl.
  - repeat split.
  - destruct (p c) eqn:E.
    + destruct (Str.span p s) as [a b]. simpl in *.
      destruct IH as (H1 & H2 & H3). repeat split; try assumption.
      * now rewrite <- H1.
      * apply all_cons. now split.
    + simpl. repeat split. exact E.
Qed.

Lemma span_app p a : forall b,
  Spec.all p a -> Checks.stops p b -> Str.span p (a ++ b) = (a, b).
Proof.
  induction a as [| c a IH]; intros b Ha Hb; simpl.
  - destruct b as [| d b]; [reflexivity|]. simpl in *. now rewrite Hb.
  - apply all_cons in Ha. destruct Ha as [Hc Ha]. rewrite Hc.
    now rewrite (IH b Ha Hb).
Qed.

Lemma plus_spec p s a b :
  Re.plus p s = Some (a, b) -> s = a ++ b /\ Spec.some p a /\ Checks.stops p b.
Proof.
  unfold Re.plus. pose proof (span_spec p s) as H.
  destruct (Str.span p s) as [x y]. simpl in H.
  destruct x as [| c x]; simpl; [discriminate|].
  intros E. inversion E; subst. destruct H as (H1 & H2 & H3).
  repeat split; try assumption. discriminate.
Qed.


Lemma spaces_spec s :
  exists w, s = w ++ Re.spaces s /\ Spec.all Str.isSpace w
            /\ Checks.stops Str.isSpace (Re.spaces s).
Proof.
  unfold Re.spaces. pose proof (span_spec Str.isSpace s) as (H1 & H2 & H3).
  now exists (fst (Str.span Str.isSpace s)).
Qed.






Lemma alphaTail_sound s r :
  Re.alphaTail s = Some r ->
  exists tail rest, s = tail ++ ")" ++ rest /\ Spec.tailForm tail r.
Proof.
  unfold Re.alphaTail.
  assert (Hplain : forall r',
            match Re.lit ")" s with Some _ => Some None | None => None end
            = Some r' ->
            exists tail rest, s = tail ++ ")" ++ rest /\ Spec.tailForm tail r').
  { intros r'. destruct (Re.lit ")" s) as [t|] eqn:E4; [| discriminate].
    intros H. inversion H; subst r'. apply lit_spec in E4.
    exists "", t. split; [exact E4 | left; now split]. }
  destruct (Re.lit "," s) as [s1|] eqn:E1; [| apply Hplain].
  destruct (Re.plus Str.isDigitOrDot (Re.spaces s1)) as [[al s2]|] eqn:E2;
    [| apply Hplain].
  destruct (Re.lit ")" s2) as [t|] eqn:E3; [| apply Hplain].
  intros H. inversion H; subst r. apply lit_spec in E1, E3.
  apply plus_spec in E2. destruct E2 as (E2 & Hal & _).
  destruct (spaces_spec s1) as (w & Hw & Hws & _).
  exists ("," ++ w ++ al), t. split.
  - rewrite E1, Hw, E2, E3. simpl. now rewrite !append_assoc.
  - right. now exists w, al.
Qed.


(** What the matcher returns is a match of the pattern at the start of the
    string, with its groups. *)
Lemma matchHere_sound s g :
  Re.matchHere s = Some g ->
  exists m rest,
    s = m ++ rest /\ Spec.rgbMatch m (Re.g1 g) (Re.g2 g) (Re.g3 g) (Re.g4 g).
Proof.
  unfold Re.matchHere.
  destruct (Re.lit "rgb" s) as [s1|] eqn:E1; [| discriminate].
  set (s2 := match Re.lit "a" s1 with Some t => t | None => s1 end).
  assert (Hname : exists name, (name = "rgb" \/ name = "rgba") /\ s = name ++ s2).
  { apply lit_spec in E1. subst s2. destruct (Re.lit "a" s1) as [t|] eqn:Ea.
    - apply lit_spec in Ea. exists "rgba". split; [now right|]. now rewrite E1, Ea.
    - exists "rgb". split; [now left | exact E1]. }
  clearbody s2. destruct Hname as (name & Hname & Hs).
  destruct (Re.lit "(" s2) as [s3|] eqn:E3; [| discriminate].
  destruct (Re.plus Str.isDigit s3) as [[d1 s4]|] eqn:E4; [| discriminate].
  destruct (Re.lit "," s4) as [s5|] eqn:E5; [| discriminate].
  destruct (Re.plus Str.isDigit (Re.spaces s5)) as [[d2 s6]|] eqn:E6; [| discriminate].
  destruct (Re.lit "," s6) as [s7|] eqn:E7; [| discriminate].
  destruct (Re.plus Str.isDigit (Re.spaces s7)) as [[d3 s8]|] eqn:E8; [| discriminate].
  destruct (Re.alphaTail s8) as [al|] eqn:E9; [| discriminate].
  intros H. inversion H; subst g. cbn [Re.g1 Re.g2 Re.g3 Re.g4].
  apply lit_spec in E3, E5, E7.
  apply plus_spec in E4, E6, E8.
  destruct E4 as (E4 & Hd1 & _), E6 as (E6 & Hd2 & _), E8 as (E8 & Hd3 & _).
  destruct (spaces_spec s5) as (w1 & Hw1 & Hws1 & _).
  destruct (spaces_spec s7) as (w2 & Hw2 & Hws2 & _).
  destruct (alphaTail_sound _ _ E9) as (tail & rest & Ht & Htail).
  exists (name ++ "(" ++ d1 ++ "," ++ w1 ++ d2 ++ "," ++ w2 ++ d3 ++ tail ++ ")"), rest.
  split.
  - rewrite Hs, E3, E4, E5, Hw1, E6, E7, Hw2, E8, Ht.
    repeat (rewrite ?append_assoc; simpl). reflexivity.
  - exists name, w1, w2, tail. repeat split; try assumption;
      try (destruct Hd1; assumption); try (destruct Hd2; assumption);
      try (destruct Hd3; assumption).
Qed.



Lemma exec_sound s g : Re.exec s = Some g -> Spec.containsRgb s.
Proof.
  induction s as [| c t IH]; cbn [Re.exec].
  - destruct (Re.matchHere "") as [g'|] eqn:E; [| discriminate].
    intros _. destruct (matchHere_sound _ _ E) as (m & rest & Hs & Hm).
    exists "", m, rest. split; [exact Hs | eexists _, _, _, _; exact Hm].
  - destruct (Re.matchHere (String c t)) as [g'|] eqn:E.
    + intros _. destruct (matchHere_sound _ _ E) as (m & rest & Hs & Hm).
      exists "", m, rest. split; [exact Hs | eexists _, _, _, _; exact Hm].
    + intros H. destruct (IH H) as (before & m & after & Hs & Hm).
      exists (String c before), m, after. split; [| exact Hm].
      simpl. now rewrite Hs.
Qed.







End GrammarFacts.

(** ** Parsing and the hex field *)

Module ColorFacts.

Import StrFacts GrammarFacts Colors.

Lemma lit_rgb s s' : Re.lit "rgb" s = Some s' -> exists t, s = String "r" t.
Proof.
  unfold Re.lit. destruct s as [| c t]; cbn [Str.startsWith]; [discriminate|].
  destruct (Ascii.eqb "r" c) eqn:E; [| discriminate].
  apply Ascii.eqb_eq in E. subst c. intros _. now exists t.
Qed.

Lemma matchHere_r s g : Re.matchHere s = Some g -> exists t, s = String "r" t.
Proof.
  unfold Re.matchHere. destruct (Re.lit "rgb" s) as [s'|] eqn:E; [| discriminate].
  intros _. exact (lit_rgb _ _ E).
Qed.

Lemma exec_without_r s :
  ~ In "r"%char (list_ascii_of_string s) -> Re.exec s = None.
Proof.
  induction s as [| c t IH]; intros Hr.
  - reflexivity.
  - cbn [Re.exec]. destruct (Re.matchHere (String c t)) as [g|] eqn:E.
    + destruct (matchHere_r _ _ E) as [t' Ht]. inversion Ht; subst.
      exfalso. apply Hr. now left.
    + apply IH. intros H. apply Hr. now right.
Qed.

Lemma isHexDigit_cases c : Str.isHexDigit c = true -> In c Checks.hexDigits.
Proof.
  destruct c as [[] [] [] [] [] [] [] []]; intros H;
    vm_compute in H; try discriminate H; vm_compute; tauto.
Qed.

(** The two-digit text of a byte written with the digits [c1], [c2]. *)
Lemma hex_pair c1 c2 :
  Str.isHexDigit c1 = true -> Str.isHexDigit c2 = true ->
  exists v, Num.parseInt (String c1 (String c2 "")) 16 = Fin v
    /\ (0 <= v <= 255)%Z
    /\ Str.padStart2 (Num.toString16 (Fin v))
       = String (Str.lowerChar c1) (String (Str.lowerChar c2) "").
Proof.
  intros H1 H2. apply isHexDigit_cases in H1. apply isHexDigit_cases in H2.
  unfold Checks.hexDigits, list_ascii_of_string in *. cbn [list_ascii_of_string In] in H1, H2.
  repeat (destruct H1 as [H1 | H1]; [subst c1 |]); try contradiction;
  repeat (destruct H2 as [H2 | H2]; [subst c2 |]); try contradiction;
  eexists; (split; [vm_compute; reflexivity | split; [lia | vm_compute; reflexivity]]).
Qed.


Lemma lowerChar_idem c : Str.lowerChar (Str.lowerChar c) = Str.lowerChar c.
Proof. destruct c as [[] [] [] [] [] [] [] []]; vm_compute; reflexivity. Qed.

Lemma isHexDigit_not_r c : Str.isHexDigit c = true -> c <> "r"%char.
Proof. intros H ->. vm_compute in H. discriminate. Qed.

Lemma convertColor_Some s ch :
  parseChannels s = Some ch ->
  exists rec, convertColor s = Some rec /\ hex rec = hexOfChannels ch.
Proof.
  intros H. unfold convertColor. rewrite H. destruct ch as [r g b a].
  eexists. split; reflexivity.
Qed.

Lemma convertColor_None s : parseChannels s = None <-> convertColor s = None.
Proof.
  unfold convertColor. destruct (parseChannels s) as [[r g b a]|]; split;
    intros H; try discriminate; reflexivity.
Qed.

Lemma convertColor_inv s rec :
  convertColor s = Some rec ->
  exists ch, parseChannels s = Some ch /\ hex rec = hexOfChannels ch.
Proof.
  unfold convertColor. destruct (parseChannels s) as [[r g b a]|] eqn:E; [| discriminate].
  intros H. inversion H; subst. eexists. split; reflexivity.
Qed.

Lemma six_digits_shape h :
  Spec.sixDigitHex h = true ->
  exists c1 c2 c3 c4 c5 c6,
    h = String "#" (String c1 (String c2 (String c3 (String c4 (String c5 (String c6 ""))))))
    /\ Forall (fun c => Str.isHexDigit c = true) [c1; c2; c3; c4; c5; c6].
Proof.
  destruct h as [| c ds]; [discriminate|]. unfold Spec.sixDigitHex.
  intros H. apply andb_prop in H. destruct H as [H Hd].
  apply andb_prop in H. destruct H as [Hc Hl].
  apply code_eqb in Hc. subst c.
  destruct ds as [| c1 [| c2 [| c3 [| c4 [| c5 [| c6 [| c7 ds]]]]]]];
    try (vm_compute in Hl; discriminate Hl).
  - exists c1, c2, c3, c4, c5, c6. split; [reflexivity|].
    cbn [list_ascii_of_string forallb] in Hd.
    repeat (apply andb_prop in Hd; destruct Hd as [? Hd]).
    repeat constructor; assumption.
  - exfalso. unfold Str.len in Hl. cbn [String.length] in Hl.
    apply Z.eqb_eq in Hl. lia.
Qed.


Lemma parseChannels_six c1 c2 c3 c4 c5 c6 :
  Forall (fun c => Str.isHexDigit c = true) [c1; c2; c3; c4; c5; c6] ->
  parseChannels
    (String "#" (String c1 (String c2 (String c3 (String c4 (String c5 (String c6 "")))))))
  = Some {| rgba_r := Num.parseInt (String c1 (String c2 "")) 16;
            rgba_g := Num.parseInt (String c3 (String c4 "")) 16;
            rgba_b := Num.parseInt (String c5 (String c6 "")) 16;
            rgba_a := None |}.
Proof.
  intros HF. unfold parseChannels. rewrite exec_without_r; [reflexivity|].
  cbn [list_ascii_of_string list_ascii_of_string In].
  intros [H | H]; [discriminate H|].
  repeat (destruct H as [H | H];
          [subst; inversion HF as [| ? ? Hx HF']; subst;
           repeat match goal with
                  | Hf : Forall _ (_ :: _) |- _ => inversion Hf; clear Hf; subst
                  end;
           match goal with
           | Hr : Str.isHexDigit "r" = true |- _ => vm_compute in Hr; discriminate Hr
           end |]).
  exact H.
Qed.

Lemma convertColor_six_digits h :
  Spec.sixDigitHex h = true ->
  exists rec, convertColor h = Some rec /\ hex rec = Str.toLowerCase h
              /\ exists ch, parseChannels h = Some ch
                   /\ Spec.byteChannel (rgba_r ch) = true
                   /\ Spec.byteChannel (rgba_g ch) = true
                   /\ Spec.byteChannel (rgba_b ch) = true.
Proof.
  intros H. destruct (six_digits_shape _ H) as (c1 & c2 & c3 & c4 & c5 & c6 & -> & HF).
  pose proof (parseChannels_six _ _ _ _ _ _ HF) as Hp.
  destruct (convertColor_Some _ _ Hp) as [rec [Hrec Hhex]].
  exists rec. split; [exact Hrec|].
  inversion HF as [| ? ? H1 HF1]; subst. inversion HF1 as [| ? ? H2 HF2]; subst.
  inversion HF2 as [| ? ? H3 HF3]; subst. inversion HF3 as [| ? ? H4 HF4]; subst.
  inversion HF4 as [| ? ? H5 HF5]; subst. inversion HF5 as [| ? ? H6 HF6]; subst.
  destruct (hex_pair _ _ H1 H2) as (v1 & E1 & R1 & P1).
  destruct (hex_pair _ _ H3 H4) as (v2 & E2 & R2 & P2).
  destruct (hex_pair _ _ H5 H6) as (v3 & E3 & R3 & P3).
  split.
  - rewrite Hhex. unfold hexOfChannels, hexString. cbn [rgba_r rgba_g rgba_b].
    rewrite E1, E2, E3, P1, P2, P3. cbn [String.append Str.toLowerCase].
    now rewrite !lowerChar_idem.
  - eexists. split; [exact Hp|]. cbn [rgba_r rgba_g rgba_b].
    rewrite E1, E2, E3. unfold Spec.byteChannel.
    repeat split; apply andb_true_intro; split; apply Z.leb_le; lia.
Qed.

(** C3.  For every string [h] that is ['#'] followed by exactly 6 hexadecimal
    digits, [convertColor h] succeeds and its [hex] field is [h] in lower
    case. *)
Theorem six_digit_hex_is_lowercased :
  forall h, Spec.sixDigitHex h = true ->
    exists rec, convertColor h = Some rec /\ hex rec = Str.toLowerCase h.
Proof.
  intros h H. destruct (convertColor_six_digits h H) as (rec & H1 & H2 & _).
  now exists rec.
Qed.

Lemma six_digit_hex_is_lowercased_witness :
  Spec.sixDigitHex "#FFaaBB" = true
  /\ exists rec, convertColor "#FFaaBB" = Some rec
                 /\ hex rec = Str.toLowerCase "#FFaaBB".
Proof.
  split; [reflexivity |].
  apply (six_digit_hex_is_lowercased "#FFaaBB"). reflexivity.
Defined.

Lemma byteOk_all v : (0 <= v <= 255)%Z -> Checks.byteOk v = true.
Proof.
  intros Hv.
  assert (Hall : forallb Checks.byteOk (map Z.of_nat (seq 0 256)) = true)
    by (vm_compute; reflexivity).
  rewrite forallb_forall in Hall. apply Hall.
  rewrite in_map_iff. exists (Z.to_nat v). split; [lia|].
  apply in_seq. lia.
Qed.

Lemma hexOfChannels_bytes ch :
  Spec.byteChannel (rgba_r ch) = true ->
  Spec.byteChannel (rgba_g ch) = true ->
  Spec.byteChannel (rgba_b ch) = true ->
  Spec.sixDigitHex (hexOfChannels ch) = true
  /\ Str.toLowerCase (hexOfChannels ch) = hexOfChannels ch.
Proof.
  destruct ch as [[| r] [| g] [| b] a]; cbn [rgba_r rgba_g rgba_b Spec.byteChannel];
    try discriminate.
  intros Hr Hg Hb.
  apply andb_prop in Hr, Hg, Hb.
  destruct Hr as [Hr1 Hr2], Hg as [Hg1 Hg2], Hb as [Hb1 Hb2].
  apply Z.leb_le in Hr1, Hr2, Hg1, Hg2, Hb1, Hb2.
  pose proof (byteOk_all r (conj Hr1 Hr2)) as Br.
  pose proof (byteOk_all g (conj Hg1 Hg2)) as Bg.
  pose proof (byteOk_all b (conj Hb1 Hb2)) as Bb.
  unfold Checks.byteOk in Br, Bg, Bb.
  unfold hexOfChannels, hexString. cbn [rgba_r rgba_g rgba_b].
  destruct (Str.padStart2 (Num.toString16 (Fin r))) as [| r1 [| r2 [| ? ?]]]; try discriminate.
  destruct (Str.padStart2 (Num.toString16 (Fin g))) as [| g1 [| g2 [| ? ?]]]; try discriminate.
  destruct (Str.padStart2 (Num.toString16 (Fin b))) as [| b1 [| b2 [| ? ?]]]; try discriminate.
  repeat match goal with
         | H : _ && _ = true |- _ => apply andb_prop in H; destruct H
         | H : Ascii.eqb _ _ = true |- _ => apply Ascii.eqb_eq in H
         end.
  cbn [String.append Str.toLowerCase].
  split.
  - unfold Spec.sixDigitHex. cbn [list_ascii_of_string forallb].
    repeat match goal with H : Str.lowerChar ?c = ?c |- _ => rewrite H; clear H end.
    repeat match goal with H : Str.isHexDigit _ = true |- _ => rewrite H; clear H end.
    reflexivity.
  - now rewrite !lowerChar_idem.
Qed.

(** C5, as amended.  For every input [x] on which [convertColor] succeeds
    with the channels [r], [g] and [b] each an integer from 0 to 255,
    [convertColor] succeeds on the [hex] field of the result and returns the
    same [hex]. *)
Theorem hex_is_a_fixed_point_for_byte_channels :
  forall x ch rec,
    parseChannels x = Some ch ->
    Spec.byteChannel (rgba_r ch) = true ->
    Spec.byteChannel (rgba_g ch) = true ->
    Spec.byteChannel (rgba_b ch) = true ->
    convertColor x = Some rec ->
    exists rec', convertColor (hex rec) = Some rec' /\ hex rec' = hex rec.
Proof.
  intros x ch rec Hp Hr Hg Hb Hc.
  destruct (convertColor_inv _ _ Hc) as (ch' & Hp' & Hh).
  rewrite Hp in Hp'. inversion Hp'; subst ch'.
  destruct (hexOfChannels_bytes ch Hr Hg Hb) as [Hsix Hlow].
  rewrite Hh. destruct (convertColor_six_digits _ Hsix) as (rec' & H1 & H2 & _).
  exists rec'. split; [exact H1 | now rewrite H2].
Qed.

Lemma hex_is_a_fixed_point_for_byte_channels_witness :
  exists rec,
    convertColor "rgb(12, 34, 56)" = Some rec
    /\ exists rec', convertColor (hex rec) = Some rec' /\ hex rec' = hex rec.
Proof.
  assert (Hp : parseChannels "rgb(12, 34, 56)"
               = Some (mkRgba (Fin 12%Z) (Fin 34%Z) (Fin 56%Z) None))
    by (vm_compute; reflexivity).
  destruct (convertColor_Some _ _ Hp) as (rec & Hrec & _).
  exists rec. split; [exact Hrec |].
  apply (hex_is_a_fixed_point_for_byte_channels
           "rgb(12, 34, 56)" _ rec Hp); [reflexivity .. | exact Hrec].
Defined.

(** A channel above 255 prints as three hexadecimal digits, and the
    seven-digit [hex] that results is not parsed again. *)
Lemma hex_not_idempotent_out_of_range :
  exists rec, convertColor "rgb(256,0,0)" = Some rec
              /\ hex rec = "#1000000"
              /\ convertColor (hex rec) = None.
Proof.
  assert (Hp : parseChannels "rgb(256,0,0)"
               = Some (mkRgba (Fin 256%Z) (Fin 0%Z) (Fin 0%Z) None))
    by (vm_compute; reflexivity).
  destruct (convertColor_Some _ _ Hp) as (rec & Hrec & Hhex).
  exists rec. split; [exact Hrec|].
  assert (Hx : hex rec = "#1000000") by (rewrite Hhex; vm_compute; reflexivity).
  split; [exact Hx|]. rewrite Hx. apply convertColor_None. vm_compute. reflexivity.
Qed.






End ColorFacts.

(** ** Colorimetry over the reals *)

Module RealFacts.

Import Arith Colors.
Local Open Scope R_scope.

Lemma div_Fin x y : y <> 0 -> Arith.div (Fin x) (Fin y) = Fin (x / y).
Proof. intros H. unfold Arith.div. now destruct (Req_dec_T y 0). Qed.

Lemma srgbToLinear_Fin x : srgbToLinear (Fin x) = Fin (Spec.decode x).
Proof.
  unfold srgbToLinear, Spec.decode, lit.
  rewrite div_Fin by lra. cbn [Arith.le].
  destruct (Rle_dec (x / 255) 0.04045) as [H | H].
  - rewrite div_Fin by lra. reflexivity.
  - cbn [Arith.add lift2]. rewrite div_Fin by lra.
    unfold Arith.pow. destruct (Req_dec_T 2.4 0) as [E | _]; [lra|].
    destruct (Rlt_dec 0 ((x / 255 + 0.055) / 1.055)) as [_ | N]; [reflexivity|].
    exfalso. apply N. apply Rdiv_lt_0_compat; lra.
Qed.

Lemma atan_nonpos t : t <= 0 -> atan t <= 0.
Proof.
  intros [H | ->]; [| rewrite atan_0; lra].
  left. rewrite <- atan_0. now apply atan_increasing.
Qed.

Lemma atan_pos t : 0 < t -> 0 < atan t.
Proof. intros H. rewrite <- atan_0. now apply atan_increasing. Qed.

Lemma atan2R_bound y x : - PI < atan2R y x <= PI.
Proof.
  pose proof PI_RGT_0 as Hpi. unfold atan2R.
  destruct (Rlt_dec 0 x) as [Hx | Hx].
  - pose proof (atan_bound (y / x)). lra.
  - destruct (Rlt_dec x 0) as [Hx' | Hx'].
    + pose proof (atan_bound (y / x)) as Hb. destruct (Rle_dec 0 y) as [Hy | Hy].
      * assert (y / x <= 0).
        { unfold Rdiv. replace 0 with (y * 0) by ring.
          apply Rmult_le_compat_l; [assumption|].
          left. now apply Rinv_lt_0_compat. }
        pose proof (atan_nonpos _ H). lra.
      * assert (0 < y / x).
        { unfold Rdiv. replace (y * / x) with ((- y) * (- / x)) by ring.
          apply Rmult_lt_0_compat; [lra|].
          pose proof (Rinv_lt_0_compat x Hx'). lra. }
        pose proof (atan_pos _ H). lra.
    + destruct (Rlt_dec 0 y); [lra|]. destruct (Rlt_dec y 0); lra.
Qed.

Lemma hue_range a b : 0 <= Spec.hue a b < 360.
Proof.
  unfold Spec.hue. set (d := atan2R b a * 180 / PI).
  pose proof (Zfloor_bound (d / 360)) as H. lra.
Qed.

Lemma degrees_bound a b : -180 < atan2R b a * 180 / PI <= 180.
Proof.
  pose proof PI_RGT_0 as Hpi. pose proof (atan2R_bound b a) as [H1 H2].
  split.
  - apply Rmult_lt_reg_r with PI; [assumption|].
    unfold Rdiv. rewrite Rmult_assoc, Rinv_l by lra. lra.
  - apply Rmult_le_reg_r with PI; [assumption|].
    unfold Rdiv. rewrite Rmult_assoc, Rinv_l by lra. lra.
Qed.

Lemma labToLch_Fin l a b :
  labToLch (Fin l) (Fin a) (Fin b)
  = mkLch (Fin l) (Fin (Spec.chroma a b)) (Fin (Spec.hue a b)).
Proof.
  pose proof PI_RGT_0 as Hpi.
  unfold labToLch, lit. cbn [Arith.mul Arith.add lift2 Arith.sqrt Arith.atan2].
  rewrite div_Fin by lra. cbn [Arith.mul lift2 Arith.lt Arith.add].
  f_equal.
  - destruct (Rlt_dec (a * a + b * b) 0) as [H | _]; [| reflexivity].
    exfalso. nra.
  - unfold Spec.hue.
    replace (atan2R b a * (180 / PI)) with (atan2R b a * 180 / PI)
      by (field; lra).
    pose proof (degrees_bound a b) as Hd.
    set (d := atan2R b a * 180 / PI) in *.
    destruct (Rlt_dec d 0) as [H | H]; f_equal.
    + rewrite (Zfloor_eq (-1) (d / 360)) by (split; lra). lra.
    + rewrite (Zfloor_eq 0 (d / 360)) by (split; lra). lra.
Qed.

Lemma xyzToLab_Fin x y z :
  let '(L, a, b) := Spec.lab [x; y; z] in
  xyzToLab (Fin x) (Fin y) (Fin z) = mkLab (Fin L) (Fin a) (Fin b).
Proof.
  cbn [Spec.lab]. unfold xyzToLab, lit, Spec.f, Spec.Xn, Spec.Yn, Spec.Zn.
  rewrite !div_Fin by lra. cbn [Arith.lt].
  assert (Hf : forall t,
    (if (if Rlt_dec 0.008856 t then true else false)
     then Arith.cbrt (Fin t)
     else Arith.div (Arith.add (Arith.mul (Fin 903.3) (Fin t)) (Fin 16)) (Fin 116))
    = Fin (if Rlt_dec 0.008856 t then cbrtR t else (903.3 * t + 16) / 116)).
  { intros t. destruct (Rlt_dec 0.008856 t); [reflexivity|].
    cbn [Arith.mul Arith.add lift2]. now rewrite div_Fin by lra. }
  rewrite !Hf. cbn [Arith.mul Arith.sub lift2].
  replace 1.00000 with 1.0 by lra. reflexivity.
Qed.

Lemma rgbToLch_Fin r g b :
  let '(L, a, b') :=
    Spec.lab (Spec.apply Spec.D65 [Spec.decode r; Spec.decode g; Spec.decode b]) in
  rgbToLch (Fin r) (Fin g) (Fin b)
  = mkLch (Fin L) (Fin (Spec.chroma a b')) (Fin (Spec.hue a b')).
Proof.
  destruct (Spec.lab (Spec.apply Spec.D65 [Spec.decode r; Spec.decode g; Spec.decode b]))
    as [[L a] b'] eqn:E.
  unfold rgbToLch. rewrite !srgbToLinear_Fin.
  unfold linearRgbToXyz, lit. cbn [Arith.mul Arith.add lift2 xyz_x xyz_y xyz_z].
  pose proof (xyzToLab_Fin
    (0.4124564 * Spec.decode r + 0.3575761 * Spec.decode g + 0.1804375 * Spec.decode b)
    (0.2126729 * Spec.decode r + 0.7151522 * Spec.decode g + 0.0721750 * Spec.decode b)
    (0.0193339 * Spec.decode r + 0.1191920 * Spec.decode g + 0.9503041 * Spec.decode b))
    as Hlab.
  cbn [Spec.apply Spec.D65 map Spec.dot] in E.
  rewrite !Rplus_0_r, <- !Rplus_assoc in E.
  rewrite E in Hlab. rewrite Hlab. cbn [lab_l lab_a lab_b].
  apply labToLch_Fin.
Qed.









(** *** Cube roots *)

Lemma cube_le a b : 0 <= a -> 0 <= b -> a ^ 3 <= b ^ 3 -> a <= b.
Proof.
  intros Ha Hb H. destruct (Rle_lt_dec a b) as [| Hlt]; [assumption|]. exfalso.
  assert (Hp : 0 < (a - b) * (a * a + a * b + b * b)).
  { apply Rmult_lt_0_compat; [lra | nra]. }
  replace ((a - b) * (a * a + a * b + b * b)) with (a ^ 3 - b ^ 3) in Hp by ring.
  lra.
Qed.

Lemma cube_inj a b : 0 <= a -> 0 <= b -> a ^ 3 = b ^ 3 -> a = b.
Proof. intros Ha Hb H. apply Rle_antisym; apply cube_le; lra. Qed.

Lemma Rpower_pos x y : 0 < Rpower x y.
Proof. unfold Rpower. apply exp_pos. Qed.

Lemma cbrtR_0 : cbrtR 0 = 0.
Proof.
  unfold cbrtR. destruct (total_order_T 0 0) as [[H | H] | H]; try lra.
Qed.

Lemma cbrtR_pos x : 0 < x -> cbrtR x = Rpower x (/ 3).
Proof.
  intros Hx. unfold cbrtR.
  destruct (total_order_T x 0) as [[H | H] | H]; try lra.
Qed.

Lemma cbrtR_nonneg x : 0 <= x -> 0 <= cbrtR x.
Proof.
  intros [Hx | <-]; [| rewrite cbrtR_0; lra].
  rewrite cbrtR_pos by assumption. left. apply Rpower_pos.
Qed.

Lemma cbrtR_cube x : 0 <= x -> cbrtR x ^ 3 = x.
Proof.
  intros [Hx | <-]; [| rewrite cbrtR_0; ring].
  rewrite cbrtR_pos by assumption.
  rewrite <- (Rpower_pow 3) by apply Rpower_pos.
  rewrite Rpower_mult. replace (/ 3 * INR 3) with 1 by (simpl; lra).
  now apply Rpower_1.
Qed.

Lemma cbrtR_unique x y : 0 <= y -> y ^ 3 = x -> cbrtR x = y.
Proof.
  intros Hy Hc. assert (Hx : 0 <= x) by (rewrite <- Hc; apply pow_le; exact Hy).
  apply cube_inj; [now apply cbrtR_nonneg | assumption |].
  now rewrite cbrtR_cube.
Qed.

Lemma cbrtR_mult x y : 0 <= x -> 0 <= y -> cbrtR (x * y) = cbrtR x * cbrtR y.
Proof.
  intros Hx Hy. apply cbrtR_unique.
  - apply Rmult_le_pos; now apply cbrtR_nonneg.
  - rewrite Rpow_mult_distr, !cbrtR_cube by assumption. reflexivity.
Qed.

Lemma cbrtR_le_upper x y : 0 <= x -> 0 <= y -> x <= y ^ 3 -> cbrtR x <= y.
Proof.
  intros Hx Hy H. apply cube_le; [now apply cbrtR_nonneg | assumption |].
  now rewrite cbrtR_cube.
Qed.

Lemma cbrtR_le_lower x y : 0 <= x -> 0 <= y -> y ^ 3 <= x -> y <= cbrtR x.
Proof.
  intros Hx Hy H. apply cube_le; [assumption | now apply cbrtR_nonneg |].
  now rewrite cbrtR_cube.
Qed.

(** *** The power 2.4 *)

Lemma Rpower_12_5 x : 0 < x -> Rpower x 2.4 = Rpower (x ^ 12) (/ 5).
Proof.
  intros Hx. rewrite <- (Rpower_pow 12) by assumption.
  rewrite Rpower_mult. f_equal. simpl. lra.
Qed.

Lemma Rpower_5_root c : 0 < c -> c = Rpower (c ^ 5) (/ 5).
Proof.
  intros Hc. rewrite <- (Rpower_pow 5) by assumption.
  rewrite Rpower_mult. replace (INR 5 * / 5) with 1 by (simpl; lra).
  symmetry. now apply Rpower_1.
Qed.

Lemma Rpower_24_le x c : 0 < x -> 0 < c -> x ^ 12 <= c ^ 5 -> Rpower x 2.4 <= c.
Proof.
  intros Hx Hc H. rewrite (Rpower_12_5 x Hx), (Rpower_5_root c Hc) at 1.
  apply Rle_Rpower_l; [lra|]. split; [now apply pow_lt | assumption].
Qed.

Lemma Rpower_24_gt x c : 0 < x -> 0 < c -> c ^ 5 < x ^ 12 -> c < Rpower x 2.4.
Proof.
  intros Hx Hc H. rewrite (Rpower_12_5 x Hx), (Rpower_5_root c Hc) at 1.
  apply Rlt_Rpower_l; [lra|]. split; [now apply pow_lt | assumption].
Qed.

Lemma Rpower_base_1 y : Rpower 1 y = 1.
Proof. unfold Rpower. rewrite ln_1, Rmult_0_r. apply exp_0. Qed.


(** *** Grey levels *)

Lemma decode_grey k :
  (0 <= k <= 255)%Z ->
  0 <= Spec.decode (IZR k) <= 1
  /\ (1.0000001 * Spec.decode (IZR k) <= 0.008856
      \/ 0.008856 < Spec.decode (IZR k)).
Proof.
  intros [Hk0 Hk1]. apply IZR_le in Hk0, Hk1.
  unfold Spec.decode. destruct (Rle_dec (IZR k / 255) 0.04045) as [Hl | Hl].
  - split; [lra | left; lra].
  - set (base := (IZR k / 255 + 0.055) / 1.055).
    assert (Hb : 0 < base <= 1) by (unfold base; split; lra).
    split; [split |].
    + left. apply Rpower_pos.
    + apply Rpower_24_le; [lra | lra |].
      replace (1 ^ 5) with (1 ^ 12) by lra. apply pow_incr. lra.
    + destruct (Z_le_gt_dec k 23) as [H23 | H24].
      * left. apply IZR_le in H23.
        assert (Rpower base 2.4 <= 0.0088); [| lra].
        apply Rpower_24_le; [lra | lra |].
        apply Rle_trans with (((23 / 255 + 0.055) / 1.055) ^ 12); [| lra].
        apply pow_incr. unfold base. lra.
      * right. assert (H24' : (24 <= k)%Z) by lia. apply IZR_le in H24'.
        apply Rpower_24_gt; [lra | lra |].
        apply Rlt_le_trans with (((24 / 255 + 0.055) / 1.055) ^ 12); [lra |].
        apply pow_incr. unfold base. lra.
Qed.

Lemma f_delta v :
  0 <= v <= 1 ->
  1.0000001 * v <= 0.008856 \/ 0.008856 < v ->
  0 <= Spec.f (1.0000001 * v) - Spec.f v <= 3.4e-8.
Proof.
  intros Hv Hreg. unfold Spec.f.
  destruct (Rlt_dec 0.008856 (1.0000001 * v)) as [H1 | H1];
    destruct (Rlt_dec 0.008856 v) as [H2 | H2]; try lra.
  rewrite cbrtR_mult by lra.
  assert (Hk : 1 <= cbrtR 1.0000001 <= 1 + 3.4e-8).
  { split; [apply cbrtR_le_lower | apply cbrtR_le_upper]; lra. }
  assert (Hu : 0 <= cbrtR v <= 1).
  { split; [apply cbrtR_nonneg | apply cbrtR_le_upper]; lra. }
  nra.
Qed.

Lemma sqrt_le_bound x y : 0 <= x -> 0 <= y -> x <= y * y -> R_sqrt.sqrt x <= y.
Proof.
  intros Hx Hy H. rewrite <- (sqrt_square y Hy).
  apply sqrt_le_1; [assumption | nra | assumption].
Qed.

Lemma sqrt_ge_bound x y : 0 <= y -> y * y <= x -> y <= R_sqrt.sqrt x.
Proof.
  intros Hy H. rewrite <- (sqrt_square y Hy) at 1.
  apply sqrt_le_1; [nra | nra | assumption].
Qed.

(** The LCH chroma of a grey, through the difference [d] of [f] at the two
    tristimulus ratios. *)
Lemma grey_lch_chroma v :
  let '(L, a, b) := Spec.lab (Spec.apply Spec.D65 [v; v; v]) in
  a = -500 * (Spec.f (1.0000001 * v) - Spec.f v)
  /\ b = 200 * (Spec.f (1.0000001 * v) - Spec.f v).
Proof.
  cbn [Spec.apply Spec.D65 map Spec.dot Spec.lab].
  unfold Spec.Xn, Spec.Yn, Spec.Zn.
  replace ((0.4124564 * v + (0.3575761 * v + (0.1804375 * v + 0))) / 0.95047)
    with v by lra.
  replace ((0.2126729 * v + (0.7151522 * v + (0.0721750 * v + 0))) / 1.0)
    with (1.0000001 * v) by lra.
  replace ((0.0193339 * v + (0.1191920 * v + (0.9503041 * v + 0))) / 1.08883)
    with v by lra.
  split; ring.
Qed.

Lemma grey_lch k :
  (0 <= k <= 255)%Z ->
  exists c, lch_c (rgbToLch (Fin (IZR k)) (Fin (IZR k)) (Fin (IZR k))) = Fin c
            /\ 0 <= c <= 2e-5.
Proof.
  intros Hk. destruct (decode_grey k Hk) as [Hv Hreg].
  pose proof (rgbToLch_Fin (IZR k) (IZR k) (IZR k)) as H.
  pose proof (grey_lch_chroma (Spec.decode (IZR k))) as Hab.
  destruct (Spec.lab _) as [[L a] b]. destruct Hab as [Ha Hb].
  rewrite H. cbn [lch_c]. eexists. split; [reflexivity|].
  pose proof (f_delta _ Hv Hreg) as Hd.
  set (d := Spec.f (1.0000001 * Spec.decode (IZR k)) - Spec.f (Spec.decode (IZR k))) in *.
  unfold Spec.chroma. split; [apply sqrt_pos|].
  apply Rle_trans with (539 * d); [| lra].
  apply sqrt_le_bound; subst a b; nra.
Qed.

Lemma white_lch :
  exists c, lch_c (rgbToLch (Fin 255) (Fin 255) (Fin 255)) = Fin c
            /\ 1.7e-5 <= c.
Proof.
  pose proof (rgbToLch_Fin 255 255 255) as H.
  assert (Hdec : Spec.decode 255 = 1).
  { unfold Spec.decode. destruct (Rle_dec (255 / 255) 0.04045) as [Hl | _]; [lra|].
    replace ((255 / 255 + 0.055) / 1.055) with 1 by lra. apply Rpower_base_1. }
  rewrite Hdec in H.
  pose proof (grey_lch_chroma 1) as Hab.
  destruct (Spec.lab _) as [[L a] b]. destruct Hab as [Ha Hb].
  rewrite H. cbn [lch_c]. eexists. split; [reflexivity|].
  assert (Hd : 3.3e-8 <= Spec.f (1.0000001 * 1) - Spec.f 1).
  { unfold Spec.f.
    destruct (Rlt_dec 0.008856 (1.0000001 * 1)) as [_ | N]; [| lra].
    destruct (Rlt_dec 0.008856 1) as [_ | N]; [| lra].
    assert (cbrtR 1 = 1) by (apply cbrtR_unique; lra).
    assert (1 + 3.3e-8 <= cbrtR (1.0000001 * 1))
      by (apply cbrtR_le_lower; lra).
    lra. }
  set (d := Spec.f (1.0000001 * 1) - Spec.f 1) in *.
  unfold Spec.chroma. apply Rle_trans with (538 * d); [lra|].
  apply sqrt_ge_bound; subst a b; nra.
Qed.


Lemma oklabToOklch_Fin L a b :
  oklabToOklch (Fin L) (Fin a) (Fin b)
  = mkLch (Fin L) (Fin (Spec.chroma a b)) (Fin (Spec.hue a b)).
Proof. exact (labToLch_Fin L a b). Qed.

Lemma rgbToOklch_Fin r g b :
  let lr := Spec.decode r in
  let lg := Spec.decode g in
  let lb := Spec.decode b in
  let l := cbrtR (0.4122214708 * lr + 0.5363325363 * lg + 0.0514459929 * lb) in
  let m := cbrtR (0.2119034982 * lr + 0.6806995451 * lg + 0.1073969566 * lb) in
  let s := cbrtR (0.0883024619 * lr + 0.2817188376 * lg + 0.6299787005 * lb) in
  rgbToOklch (Fin r) (Fin g) (Fin b)
  = mkLch (Fin (0.2104542553 * l + 0.7936177850 * m - 0.0040720468 * s))
      (Fin (Spec.chroma
              (1.9779984951 * l - 2.4285922050 * m + 0.4505937099 * s)
              (0.0259040371 * l + 0.7827717662 * m - 0.8086757660 * s)))
      (Fin (Spec.hue
              (1.9779984951 * l - 2.4285922050 * m + 0.4505937099 * s)
              (0.0259040371 * l + 0.7827717662 * m - 0.8086757660 * s))).
Proof.
  intros lr lg lb l m s0. unfold rgbToOklch. rewrite !srgbToLinear_Fin.
  unfold linearRgbToOklab, lit.
  cbn [Arith.mul Arith.add Arith.sub lift2 Arith.cbrt numMap ok_L ok_a ok_b].
  apply oklabToOklch_Fin.
Qed.

Lemma grey_oklch k :
  (0 <= k <= 255)%Z ->
  exists c, lch_c (rgbToOklch (Fin (IZR k)) (Fin (IZR k)) (Fin (IZR k))) = Fin c
            /\ 0 <= c <= 1e-6.
Proof.
  intros Hk. destruct (decode_grey k Hk) as [Hv _].
  pose proof (rgbToOklch_Fin (IZR k) (IZR k) (IZR k)) as H. cbv zeta in H.
  rewrite H. cbn [lch_c]. eexists. split; [reflexivity|].
  set (v := Spec.decode (IZR k)) in *.
  replace (0.4122214708 * v + 0.5363325363 * v + 0.0514459929 * v) with v by lra.
  replace (0.2119034982 * v + 0.6806995451 * v + 0.1073969566 * v)
    with (0.9999999999 * v) by lra.
  replace (0.0883024619 * v + 0.2817188376 * v + 0.6299787005 * v) with v by lra.
  rewrite cbrtR_mult by lra.
  assert (Hk' : 1 - 1e-10 <= cbrtR 0.9999999999 <= 1).
  { split; [apply cbrtR_le_lower | apply cbrtR_le_upper]; lra. }
  assert (Hu : 0 <= cbrtR v <= 1).
  { split; [apply cbrtR_nonneg | apply cbrtR_le_upper]; lra. }
  set (u := cbrtR v) in *. set (q := cbrtR 0.9999999999) in *.
  unfold Spec.chroma. split; [apply sqrt_pos|].
  assert (Ha : 0 <= 1.9779984951 * u - 2.4285922050 * (q * u) + 0.4505937099 * u
               <= 3e-10) by nra.
  assert (Hb : 0 <= 0.0259040371 * u + 0.7827717662 * (q * u) - 0.8086757660 * u
               <= 4e-8) by nra.
  set (a := 1.9779984951 * u - 2.4285922050 * (q * u) + 0.4505937099 * u) in *.
  set (b := 0.0259040371 * u + 0.7827717662 * (q * u) - 0.8086757660 * u) in *.
  apply sqrt_le_bound; [nra | lra | nra].
Qed.

(** C2, as amended.  For every grey [r = g = b = k] with [k] an integer from
    0 to 255, the chroma of [rgbToOklch] is within 1e-6 of 0, and the chroma
    of [rgbToLch] is within 2e-5 of 0. *)
Theorem grey_chroma_is_near_zero :
  forall k : Z,
    (0 <= k <= 255)%Z ->
    Spec.within 2e-5 (lch_c (rgbToLch (Fin (IZR k)) (Fin (IZR k)) (Fin (IZR k))))
    /\ Spec.within 1e-6
         (lch_c (rgbToOklch (Fin (IZR k)) (Fin (IZR k)) (Fin (IZR k)))).
Proof.
  intros k Hk.
  destruct (grey_lch k Hk) as (c1 & -> & H1).
  destruct (grey_oklch k Hk) as (c2 & -> & H2).
  unfold Spec.within. rewrite !Rminus_0_r, !Rabs_pos_eq by lra. lra.
Qed.

Lemma grey_chroma_is_near_zero_witness :
  (0 <= 128 <= 255)%Z
  /\ Spec.within 2e-5
       (lch_c (rgbToLch (Fin (IZR 128)) (Fin (IZR 128)) (Fin (IZR 128))))
  /\ Spec.within 1e-6
       (lch_c (rgbToOklch (Fin (IZR 128)) (Fin (IZR 128)) (Fin (IZR 128)))).
Proof.
  split; [lia |]. apply (grey_chroma_is_near_zero 128). lia.
Defined.

(** At white the middle row of the D65 matrix sums to 1.0000001, and the LCH
    chroma is above 1.7e-5. *)
Lemma white_lch_chroma_exceeds_tolerance :
  ~ Spec.within 1e-6 (lch_c (rgbToLch (Fin 255) (Fin 255) (Fin 255))).
Proof.
  destruct white_lch as (c & -> & Hc). unfold Spec.within.
  rewrite Rminus_0_r, Rabs_pos_eq by lra. lra.
Qed.

End RealFacts.

(** ** Consolidation *)

Module DisplayFacts.

Import StrFacts Display.

Lemma mem_In k ks : mem k ks = true <-> In k ks.
Proof.
  unfold mem. rewrite existsb_exists. split.
  - intros [x [Hx He]]. apply String.eqb_eq in He. now subst.
  - intros H. exists k. split; [assumption | apply String.eqb_refl].
Qed.

Lemma has_mem k m : has k m = mem k (keys m).
Proof.
  unfold has. induction m as [| [k' v] m IH]; simpl; [reflexivity|].
  rewrite (String.eqb_sym k k').
  destruct (String.eqb k' k); simpl; [reflexivity | exact IH].
Qed.

Lemma get_set_same k v m : get k (set k v m) = Some v.
Proof.
  induction m as [| [k' w] m IH]; simpl.
  - now rewrite String.eqb_refl.
  - destruct (String.eqb k' k) eqn:E; simpl; rewrite E; [reflexivity | exact IH].
Qed.

Lemma get_set_other k k' v m : k <> k' -> get k' (set k v m) = get k' m.
Proof.
  intros Hne. induction m as [| [k0 w] m IH]; simpl.
  - destruct (String.eqb k k') eqn:E; [apply String.eqb_eq in E; contradiction | reflexivity].
  - destruct (String.eqb k0 k) eqn:E; simpl.
    + apply String.eqb_eq in E. subst k0.
      destruct (String.eqb k k') eqn:E'; [apply String.eqb_eq in E'; contradiction | reflexivity].
    + destruct (String.eqb k0 k'); [reflexivity | exact IH].
Qed.

Lemma keys_set_old k v m : has k m = true -> keys (set k v m) = keys m.
Proof.
  unfold has. induction m as [| [k0 w] m IH]; simpl; [discriminate|].
  destruct (String.eqb k0 k) eqn:E; simpl; [reflexivity|].
  intros H. f_equal. exact (IH H).
Qed.

Lemma keys_set_new k v m : has k m = false -> keys (set k v m) = (keys m ++ [k])%list.
Proof.
  unfold has. induction m as [| [k0 w] m IH]; simpl; [reflexivity|].
  destruct (String.eqb k0 k) eqn:E; simpl; [discriminate|].
  intros H. f_equal. exact (IH H).
Qed.

Lemma has_get k m : has k m = true -> exists e, get k m = Some e.
Proof. unfold has. destruct (get k m) as [e|]; [eauto | discriminate]. Qed.

Lemma has_false_get k m : has k m = false -> get k m = None.
Proof. unfold has. now destruct (get k m). Qed.

(** What [visit] does, by cases. *)
Lemma visit_old m c e :
  get (keyOf c) m = Some e -> visit m c = set (keyOf c) (merged e c) m.
Proof.
  intros H. unfold visit, has. fold (keyOf c). now rewrite H.
Qed.

Lemma visit_new m c :
  get (keyOf c) m = None -> visit m c = set (keyOf c) c m.
Proof.
  intros H. unfold visit, has. fold (keyOf c). now rewrite H.
Qed.

Lemma get_visit_same m c :
  get (keyOf c) (visit m c)
  = Some (match get (keyOf c) m with Some e => merged e c | None => c end).
Proof.
  destruct (get (keyOf c) m) as [e|] eqn:E.
  - rewrite (visit_old _ _ _ E). apply get_set_same.
  - rewrite (visit_new _ _ E). apply get_set_same.
Qed.

Lemma get_visit_other m c k : keyOf c <> k -> get k (visit m c) = get k m.
Proof.
  intros Hne. destruct (get (keyOf c) m) as [e|] eqn:E.
  - rewrite (visit_old _ _ _ E). now apply get_set_other.
  - rewrite (visit_new _ _ E). now apply get_set_other.
Qed.

Lemma keys_visit m c :
  keys (visit m c)
  = if mem (keyOf c) (keys m) then keys m else (keys m ++ [keyOf c])%list.
Proof.
  rewrite <- has_mem. destruct (has (keyOf c) m) eqn:H.
  - destruct (has_get _ _ H) as [e E]. rewrite (visit_old _ _ _ E).
    now apply keys_set_old.
  - rewrite (visit_new _ _ (has_false_get _ _ H)). now apply keys_set_new.
Qed.

Lemma dedupe_snoc l c : dedupe (l ++ [c])%list = visit (dedupe l) c.
Proof. unfold dedupe. now rewrite fold_left_app. Qed.

Lemma keyOf_merged e c : keyOf (merged e c) = keyOf e.
Proof. reflexivity. Qed.

Lemma Forall_set k v m :
  k = keyOf v -> Forall (fun kv => fst kv = keyOf (snd kv)) m ->
  Forall (fun kv => fst kv = keyOf (snd kv)) (set k v m).
Proof.
  intros Hk. induction m as [| [k0 w] m IH]; simpl; intros HF.
  - constructor; [exact Hk | constructor].
  - inversion HF; subst. destruct (String.eqb k0 (keyOf v)) eqn:E.
    + constructor; [| assumption]. simpl. now apply String.eqb_eq in E.
    + constructor; [assumption | now apply IH].
Qed.

Lemma get_In k e m : get k m = Some e -> In (k, e) m.
Proof.
  induction m as [| [k0 w] m IH]; simpl; [discriminate|].
  destruct (String.eqb k0 k) eqn:E.
  - intros H; inversion H; subst. apply String.eqb_eq in E. subst. now left.
  - intros H. right. now apply IH.
Qed.

Lemma In_get k e m : NoDup (keys m) -> In (k, e) m -> get k m = Some e.
Proof.
  induction m as [| [k0 w] m IH]; simpl; [contradiction|].
  intros ND [H | H].
  - inversion H; subst. now rewrite String.eqb_refl.
  - inversion ND as [| ? ? Hnot ND']; subst.
    destruct (String.eqb k0 k) eqn:E.
    + apply String.eqb_eq in E. subst k0. exfalso. apply Hnot.
      change k with (fst (k, e)). now apply in_map.
    + now apply IH.
Qed.

Lemma wellKeyed_visit m c : wellKeyed m -> wellKeyed (visit m c).
Proof.
  intros [ND HF]. split.
  - rewrite keys_visit. destruct (mem (keyOf c) (keys m)) eqn:E; [assumption|].
    apply NoDup_app; [assumption | repeat constructor; intros [] | ].
    intros k Hk [Hk' | []]. subst k. apply mem_In in Hk. congruence.
  - destruct (get (keyOf c) m) as [e|] eqn:E.
    + rewrite (visit_old _ _ _ E). apply Forall_set; [| assumption].
      rewrite keyOf_merged. apply get_In in E.
      rewrite Forall_forall in HF. exact (HF _ E).
    + rewrite (visit_new _ _ E). now apply Forall_set.
Qed.

Lemma wellKeyed_fold l : forall m, wellKeyed m -> wellKeyed (fold_left visit l m).
Proof.
  induction l as [| c l IH]; simpl; intros m H; [assumption|].
  apply IH. now apply wellKeyed_visit.
Qed.

Lemma wellKeyed_dedupe l : wellKeyed (dedupe l).
Proof.
  apply wellKeyed_fold. split; constructor.
Qed.


Lemma values_keys m : wellKeyed m -> map keyOf (values m) = keys m.
Proof.
  intros [_ HF]. unfold values, keys. rewrite map_map.
  induction HF as [| kv m H HF IH]; simpl; [reflexivity|].
  now rewrite IH, H.
Qed.

Lemma filter_filter {A} (p q : A -> bool) l :
  filter p (filter q l) = filter (fun x => q x && p x) l.
Proof.
  induction l as [| x l IH]; simpl; [reflexivity|].
  destruct (q x); simpl; [destruct (p x) |]; now rewrite IH.
Qed.

Lemma mem_app k ks ks' : mem k (ks ++ ks')%list = mem k ks || mem k ks'.
Proof. unfold mem. apply existsb_app. Qed.

Lemma keys_fold l : forall m,
  keys (fold_left visit l m)
  = (keys m ++ filter (fun k => negb (mem k (keys m)))
                 (Spec.firstOccurrences (map keyOf l)))%list.
Proof.
  induction l as [| c l IH]; simpl; intros m.
  - now rewrite app_nil_r.
  - rewrite IH, keys_visit. destruct (mem (keyOf c) (keys m)) eqn:E; simpl.
    + f_equal. rewrite filter_filter. apply filter_ext. intros k.
      destruct (String.eqb k (keyOf c)) eqn:Ek; simpl; [| reflexivity].
      apply String.eqb_eq in Ek. subst k. now rewrite E.
    + rewrite <- app_assoc. simpl. do 2 f_equal.
      rewrite filter_filter. apply filter_ext. intros k.
      rewrite mem_app. simpl. rewrite orb_false_r, negb_orb.
      now rewrite andb_comm.
Qed.

Lemma keys_dedupe l : keys (dedupe l) = Spec.firstOccurrences (map keyOf l).
Proof.
  unfold dedupe. rewrite keys_fold. simpl.
  induction (Spec.firstOccurrences (map keyOf l)) as [| k ks IH]; simpl;
    [reflexivity | now rewrite IH].
Qed.

Lemma firstOccurrences_In ks k : In k (Spec.firstOccurrences ks) <-> In k ks.
Proof.
  induction ks as [| x ks IH]; simpl; [tauto|].
  rewrite filter_In, IH. split.
  - tauto.
  - intros [H | H]; [now left|].
    destruct (String.eqb k x) eqn:E.
    + apply String.eqb_eq in E. now left.
    + right. now split.
Qed.

Lemma find_app {A} (p : A -> bool) l l' :
  find p (l ++ l') = match find p l with Some x => Some x | None => find p l' end.
Proof.
  induction l as [| x l IH]; simpl; [reflexivity|].
  now destruct (p x).
Qed.

Lemma sameColour_refl c : sameColour c c.
Proof. repeat split. Qed.

Lemma sameColour_merged e c first : sameColour e first -> sameColour (merged e c) first.
Proof. intros H. exact H. Qed.

Lemma dedupe_first l : forall k,
  match get k (dedupe l) with
  | Some e => exists first,
      find (fun c => String.eqb (keyOf c) k) l = Some first /\ sameColour e first
  | None => find (fun c => String.eqb (keyOf c) k) l = None
  end.
Proof.
  induction l as [| c l IH] using rev_ind; intros k; [reflexivity|].
  rewrite dedupe_snoc, find_app. simpl. specialize (IH k).
  destruct (String.eqb (keyOf c) k) eqn:E.
  - apply String.eqb_eq in E. subst k. rewrite get_visit_same.
    destruct (get (keyOf c) (dedupe l)) as [e|].
    + destruct IH as [first [Hf Hs]]. exists first. rewrite Hf.
      split; [reflexivity | now apply sameColour_merged].
    + rewrite IH. exists c. split; [reflexivity | apply sameColour_refl].
  - apply String.eqb_neq in E. rewrite (get_visit_other _ _ _ E).
    destruct (get k (dedupe l)) as [e|].
    + destruct IH as [first [Hf Hs]]. exists first. now rewrite Hf.
    + now rewrite IH.
Qed.

Lemma maxConfidence_merge e c :
  mergeConfidence e c = Spec.maxConfidence (confidence e) (confidence c).
Proof.
  unfold mergeConfidence. now destruct (confidence e), (confidence c).
Qed.

Lemma maxConfidence_ge a b :
  (confidenceOrder a <= confidenceOrder (Spec.maxConfidence a b))%Z
  /\ (confidenceOrder b <= confidenceOrder (Spec.maxConfidence a b))%Z
  /\ (Spec.maxConfidence a b = a \/ Spec.maxConfidence a b = b)
  /\ (confidenceOrder a = confidenceOrder b -> Spec.maxConfidence a b = a).
Proof. destruct a, b; simpl; repeat split; auto; lia. Qed.





Lemma string_of_rev_cons c cur :
  string_of_list_ascii (rev (c :: cur))
  = string_of_list_ascii (rev cur) ++ String c "".
Proof.
  simpl. generalize (rev cur). intros l.
  induction l as [| x l IH]; simpl; [reflexivity | now rewrite IH].
Qed.

Lemma fold_join_cons rest : forall x y,
  fold_left (fun acc z => acc ++ ", " ++ z) rest (x ++ ", " ++ y)
  = x ++ ", " ++ fold_left (fun acc z => acc ++ ", " ++ z) rest y.
Proof.
  induction rest as [| r rest IH]; intros x y; cbn [fold_left]; [reflexivity|].
  rewrite <- IH. f_equal. now rewrite !append_assoc.
Qed.

Lemma join_cons x y rest :
  Spec.joinCommaSpace (x :: y :: rest) = x ++ ", " ++ Spec.joinCommaSpace (y :: rest).
Proof. cbn [Spec.joinCommaSpace fold_left]. apply fold_join_cons. Qed.

Lemma splitFrom_nonempty s : forall cur, Str.splitCommaSpaceFrom cur s <> [].
Proof.
  induction s as [| c t IH]; intros cur; simpl; [discriminate|].
  destruct t as [| d u]; [apply IH|].
  destruct ((Str.code c =? 44)%Z && (Str.code d =? 32)%Z); [discriminate | apply IH].
Qed.

(** Joining what [split] produced gives the string back. *)
Lemma join_splitFrom n : forall s cur, (String.length s <= n)%nat ->
  Spec.joinCommaSpace (Str.splitCommaSpaceFrom cur s)
  = string_of_list_ascii (rev cur) ++ s.
Proof.
  induction n as [| n IH]; intros s cur Hn.
  - destruct s; [| simpl in Hn; lia]. simpl. now rewrite append_empty_r.
  - destruct s as [| c t].
    + simpl. now rewrite append_empty_r.
    + simpl in Hn. cbn [Str.splitCommaSpaceFrom].
      assert (Hstep : Spec.joinCommaSpace (Str.splitCommaSpaceFrom (c :: cur) t)
                      = string_of_list_ascii (rev cur) ++ String c t).
      { rewrite IH by lia. rewrite string_of_rev_cons, append_assoc. reflexivity. }
      destruct t as [| d u]; [exact Hstep|].
      destruct ((Str.code c =? 44)%Z && (Str.code d =? 32)%Z) eqn:E; [| exact Hstep].
      apply andb_prop in E. destruct E as [Ec Ed].
      apply code_eqb in Ec. apply code_eqb in Ed. subst c d.
      pose proof (splitFrom_nonempty u []) as Hne.
      pose proof (IH u [] ltac:(simpl in Hn; lia)) as Hu.
      destruct (Str.splitCommaSpaceFrom [] u) as [| y rest]; [congruence|].
      rewrite join_cons, Hu. reflexivity.
Qed.

Lemma join_split s : Spec.joinCommaSpace (Str.splitCommaSpace s) = s.
Proof. exact (join_splitFrom (String.length s) s [] (le_n _)). Qed.


Lemma get_merged_label m color existing :
  get (keyOf color) m = Some existing ->
  get (keyOf color) (visit m color) = Some (merged existing color).
Proof. intros H. now rewrite get_visit_same, H. Qed.

Lemma In_values_get m e : wellKeyed m -> In e (values m) -> get (keyOf e) m = Some e.
Proof.
  intros [ND HF] H. unfold values in H. apply in_map_iff in H.
  destruct H as [[k v] [Hv Hin]]. simpl in Hv. subst v.
  rewrite Forall_forall in HF. pose proof (HF _ Hin) as Hk. simpl in Hk.
  subst k. now apply In_get.
Qed.



(** C8.  The output lists one entry per distinct lowercase hex of the
    input, in the order in which each first occurs. *)
Theorem output_in_first_occurrence_order :
  forall allColors,
    map keyOf (uniqueColors allColors)
    = Spec.firstOccurrences (map keyOf allColors)
    /\ NoDup (map keyOf (uniqueColors allColors))
    /\ (forall k, In k (map keyOf (uniqueColors allColors))
                  <-> In k (map keyOf allColors)).
Proof.
  intros allColors. pose proof (wellKeyed_dedupe allColors) as W.
  unfold uniqueColors. rewrite (values_keys _ W).
  split; [apply keys_dedupe | split].
  - exact (proj1 W).
  - intros k. rewrite keys_dedupe. apply firstOccurrences_In.
Qed.

(** C10.  A collision changes nothing but the label and the confidence of
    the entry it meets, and no other entry; so every output entry has the
    [hex], [rgb], [lch], [oklch] and [hasAlpha] (and [type]) of the first
    input colour with its key. *)
Theorem collision_keeps_first_colour :
  (forall m color existing,
     get (keyOf color) m = Some existing ->
     (exists e', get (keyOf color) (visit m color) = Some e'
                 /\ sameColour e' existing)
     /\ keys (visit m color) = keys m
     /\ (forall k, k <> keyOf color -> get k (visit m color) = get k m))
  /\ (forall allColors e,
        In e (uniqueColors allColors) ->
        exists first,
          find (fun c => String.eqb (keyOf c) (keyOf e)) allColors = Some first
          /\ sameColour e first).
Proof.
  split.
  - intros m color existing H. repeat split.
    + exists (merged existing color). split; [now apply get_merged_label|].
      apply sameColour_merged, sameColour_refl.
    + rewrite keys_visit, <- has_mem. unfold has. now rewrite H.
    + intros k Hk. apply get_visit_other. congruence.
  - intros allColors e Hin.
    pose proof (In_values_get _ _ (wellKeyed_dedupe allColors) Hin) as Hg.
    pose proof (dedupe_first allColors (keyOf e)) as Hf.
    now rewrite Hg in Hf.
Qed.



Lemma collision_keeps_first_colour_witness :
  In (setLabel "Primary, Accent" (setConfidence high red1))
     (uniqueColors [red1; red2])
  /\ exists first,
       find (fun c => String.eqb (keyOf c) "#ff0000") [red1; red2] = Some first
       /\ sameColour (setLabel "Primary, Accent" (setConfidence high red1))
            first.
Proof.
  split; [left; reflexivity |].
  apply (proj2 collision_keeps_first_colour [red1; red2]
           (setLabel "Primary, Accent" (setConfidence high red1))).
  left. reflexivity.
Defined.

End DisplayFacts.

(** * Further properties

    What follows covers the code around the places above: the rest of
    [colors.js], the way [displayColors] fills and shows its list, and the
    helpers of [figma-exporter.js]. *)

(** ** Parsing and printing integers *)

Module NumFacts.

Import StrFacts GrammarFacts.
Local Open Scope Z_scope.

Lemma length_append (a b : string) :
  String.length (a ++ b) = (String.length a + String.length b)%nat.
Proof. induction a as [| c a IH]; simpl; [reflexivity | now rewrite IH]. Qed.

Lemma valueFrom_app R s : forall a t,
  Num.valueFrom R a (s ++ t) = Num.valueFrom R (Num.valueFrom R a s) t.
Proof. induction s as [| c s IH]; intros a t; simpl; [reflexivity | apply IH]. Qed.

Lemma digitVal_digitChar d :
  0 <= d < 36 -> Num.digitVal (Num.digitChar d) = Some d.
Proof.
  intros Hd.
  assert (Hall : forallb (fun k => match Num.digitVal (Num.digitChar k) with
                                   | Some v => v =? k
                                   | None => false
                                   end) (map Z.of_nat (seq 0 36)) = true)
    by (vm_compute; reflexivity).
  rewrite forallb_forall in Hall.
  specialize (Hall d). 
  assert (Hin : In d (map Z.of_nat (seq 0 36))).
  { rewrite in_map_iff. exists (Z.to_nat d). split; [lia | apply in_seq; lia]. }
  specialize (Hall Hin).
  destruct (Num.digitVal (Num.digitChar d)) as [v|]; [| discriminate].
  apply Z.eqb_eq in Hall. now subst.
Qed.

Lemma all_app p a b : Spec.all p a -> Spec.all p b -> Spec.all p (a ++ b).
Proof.
  induction a as [| c a IH]; simpl; intros Ha Hb; [exact Hb|].
  apply all_cons in Ha. apply all_cons. split; [tauto | apply IH; tauto].
Qed.

(** What [digitsOf] prepends: a non-empty run of digits whose value is [n]. *)
Lemma digitsOf_spec R : 2 <= R <= 36 ->
  forall f n acc,
    0 <= n < R ^ Z.of_nat (S f) ->
    exists D, Num.digitsOf (S f) R n acc = D ++ acc
      /\ D <> ""
      /\ Spec.all (Num.isRadixDigit R) D
      /\ forall a, Num.valueFrom R a D = a * R ^ Z.of_nat (String.length D) + n.
Proof.
  intros HR. induction f as [| f IH]; intros n acc Hn;
    cbn [Num.digitsOf];
    assert (Hmod : 0 <= n mod R < R) by (apply Z.mod_pos_bound; lia);
    assert (Hdig : Num.isRadixDigit R (Num.digitChar (n mod R)) = true)
      by (unfold Num.isRadixDigit; rewrite digitVal_digitChar by lia;
          apply Z.ltb_lt; lia);
    assert (Hone : n / R = 0 ->
      exists D, String (Num.digitChar (n mod R)) acc = D ++ acc
        /\ D <> ""
        /\ Spec.all (Num.isRadixDigit R) D
        /\ forall a, Num.valueFrom R a D
                     = a * R ^ Z.of_nat (String.length D) + n)
      by (intros E; exists (String (Num.digitChar (n mod R)) "");
          split; [reflexivity | split; [discriminate | split]];
          [ apply all_cons; split; [exact Hdig | reflexivity]
          | intros a; simpl; rewrite digitVal_digitChar by lia;
            assert (n = n mod R) by (rewrite (Z.div_mod n R) at 1; lia); lia ]).
  - destruct (n / R =? 0) eqn:E.
    + apply Z.eqb_eq in E. cbn [Num.digitsOf]. destruct (Hone E) as (D & HD & Hrest).
      exists D. now split.
    + apply Z.eqb_neq in E. exfalso. apply E. apply Z.div_small.
      change (Z.of_nat 1) with 1 in Hn. rewrite Z.pow_1_r in Hn. lia.
  - destruct (n / R =? 0) eqn:E.
    + apply Z.eqb_eq in E. destruct (Hone E) as (D & HD & Hrest).
      exists D. now split.
    + apply Z.eqb_neq in E.
      assert (Hq : 0 <= n / R < R ^ Z.of_nat (S f)).
      { split; [apply Z.div_pos; lia|].
        apply Z.div_lt_upper_bound; [lia|].
        rewrite (Nat2Z.inj_succ (S f)), Z.pow_succ_r in Hn by lia. lia. }
      destruct (IH (n / R) (String (Num.digitChar (n mod R)) acc) Hq)
        as (D & HD & Hne & Hall & Hval).
      exists (D ++ String (Num.digitChar (n mod R)) "").
      split; [| split; [| split]].
      * cbn [Num.digitsOf] in HD. rewrite HD, append_assoc. reflexivity.
      * destruct D; [contradiction | discriminate].
      * apply all_app; [exact Hall|]. apply all_cons. split; [exact Hdig | reflexivity].
      * intros a. rewrite valueFrom_app, Hval. simpl.
        rewrite digitVal_digitChar by lia.
        rewrite length_append. simpl String.length.
        rewrite Nat2Z.inj_add, Z.pow_add_r by lia. change (Z.of_nat 1) with 1.
        rewrite Z.pow_1_r. pose proof (Z.div_mod n R ltac:(lia)) as Hdm. nia.
Qed.


Lemma enough_fuel R n :
  2 <= R -> 0 <= n -> n < R ^ Z.of_nat (S (Z.to_nat (Z.log2 n))).
Proof.
  intros HR Hn. rewrite Nat2Z.inj_succ, Z2Nat.id by apply Z.log2_nonneg.
  destruct (Z.eq_dec n 0) as [-> | Hpos].
  - simpl. lia.
  - apply Z.lt_le_trans with (2 ^ Z.succ (Z.log2 n)).
    + apply Z.log2_spec. lia.
    + apply Z.pow_le_mono_l. lia.
Qed.

(** The digits of an integer that is not negative. *)
Lemma intToString_nonneg R n :
  2 <= R <= 36 -> 0 <= n ->
  Num.intToString R n <> ""
  /\ Spec.all (Num.isRadixDigit R) (Num.intToString R n)
  /\ Num.valueFrom R 0 (Num.intToString R n) = n.
Proof.
  intros HR Hn. unfold Num.intToString.
  assert (Hlt : (n <? 0) = false) by (apply Z.ltb_ge; lia). rewrite Hlt.
  rewrite Z.abs_eq by lia. cbn [String.append].
  destruct (digitsOf_spec R HR (Z.to_nat (Z.log2 n)) n ""
              (conj Hn (enough_fuel R n (proj1 HR) Hn)))
    as (D & HD & Hne & Hall & Hval).
  rewrite HD, append_empty_r. repeat split; try assumption.
  rewrite Hval. lia.
Qed.

Lemma radixDigit_plain c :
  Num.isRadixDigit 36 c = true ->
  Str.isSpace c = false /\ Ascii.eqb "-" c = false /\ Ascii.eqb "+" c = false.
Proof.
  destruct c as [[] [] [] [] [] [] [] []]; intros H; vm_compute in H;
    try discriminate H; vm_compute; tauto.
Qed.

Lemma isRadixDigit_le R R' c :
  R <= R' -> Num.isRadixDigit R c = true -> Num.isRadixDigit R' c = true.
Proof.
  unfold Num.isRadixDigit. destruct (Num.digitVal c) as [d|]; [| discriminate].
  intros HR H. apply Z.ltb_lt in H. apply Z.ltb_lt. lia.
Qed.

Lemma not_x_digit R c :
  R <= 33 -> Num.isRadixDigit R c = true ->
  Ascii.eqb "x" c = false /\ Ascii.eqb "X" c = false.
Proof.
  intros HR H. split.
  - destruct (Ascii.eqb "x" c) eqn:E; [| reflexivity].
    apply Ascii.eqb_eq in E. subst c. unfold Num.isRadixDigit in H.
    change (Num.digitVal "x") with (Some 33) in H. apply Z.ltb_lt in H. lia.
  - destruct (Ascii.eqb "X" c) eqn:E; [| reflexivity].
    apply Ascii.eqb_eq in E. subst c. unfold Num.isRadixDigit in H.
    change (Num.digitVal "X") with (Some 33) in H. apply Z.ltb_lt in H. lia.
Qed.

(** [parseInt] on a non-empty run of digits of the radix: its value.  The
    radix is given, or missing for a decimal run. *)
Lemma parseInt_digits R radix D :
  (radix = R /\ 2 <= R <= 33) \/ (radix = 0 /\ R = 10) ->
  D <> "" -> Spec.all (Num.isRadixDigit R) D ->
  Num.parseInt D radix = Fin (Num.valueFrom R 0 D).
Proof.
  intros Hrad Hne Hall.
  assert (HR : 2 <= R <= 33) by (destruct Hrad as [[_ H] | [_ ->]]; lia).
  destruct D as [| c D]; [contradiction|].
  apply all_cons in Hall. destruct Hall as [Hc HD].
  pose proof (radixDigit_plain c (isRadixDigit_le R 36 c ltac:(lia) Hc))
    as (Hsp & Hminus & Hplus).
  unfold Num.parseInt, Num.trimStart. cbn [Str.span]. rewrite Hsp.
  cbn [snd Str.startsWith]. rewrite Hminus, Hplus. cbn [andb orb].
  assert (Hguard : negb (radix =? 0) && ((radix <? 2) || (36 <? radix)) = false).
  { destruct Hrad as [[-> _] | [-> _]]; [| reflexivity].
    apply andb_false_iff. right. apply orb_false_iff.
    split; [apply Z.ltb_ge | apply Z.ltb_ge]; lia. }
  rewrite Hguard.
  assert (Hpre : (Ascii.eqb "0" c
                  && match D with
                     | "" => false
                     | String b _ => Ascii.eqb "x" b && true
                     end
                  || Ascii.eqb "0" c
                     && match D with
                        | "" => false
                        | String b _ => Ascii.eqb "X" b && true
                        end) = false).
  { destruct D as [| b D]; [now rewrite !andb_false_r|].
    apply all_cons in HD. destruct HD as [Hb _].
    destruct (not_x_digit R b (proj2 HR) Hb) as [-> ->].
    now rewrite !andb_false_r. }
  rewrite Hpre, andb_false_r.
  assert (HRR : (if radix =? 0 then 10 else radix) = R).
  { destruct Hrad as [[-> _] | [-> ->]]; [| reflexivity].
    destruct (R =? 0) eqn:E; [apply Z.eqb_eq in E; lia | reflexivity]. }
  rewrite HRR.
  assert (Hspan : Str.span (Num.isRadixDigit R) (String c D) = (String c D, "")).
  { rewrite <- (append_empty_r (String c D)) at 1.
    apply span_app; [apply all_cons; now split | exact I]. }
  rewrite Hspan. cbn [fst Str.isEmpty]. f_equal. lia.
Qed.

Lemma parseInt_intToString_nonneg R radix n :
  (radix = R /\ 2 <= R <= 33) \/ (radix = 0 /\ R = 10) ->
  0 <= n -> Num.parseInt (Num.intToString R n) radix = Fin n.
Proof.
  intros Hrad Hn.
  assert (HR : 2 <= R <= 36) by (destruct Hrad as [[_ H] | [_ ->]]; lia).
  destruct (intToString_nonneg R n HR Hn) as (Hne & Hall & Hval).
  rewrite (parseInt_digits R radix _ Hrad Hne Hall). now rewrite Hval.
Qed.


Lemma decimalDigit_isDigit c : Num.isRadixDigit 10 c = true -> Str.isDigit c = true.
Proof.
  destruct c as [[] [] [] [] [] [] [] []]; intros H; vm_compute in H;
    try discriminate H; reflexivity.
Qed.


Lemma all_impl (p q : ascii -> bool) s :
  (forall c, p c = true -> q c = true) -> Spec.all p s -> Spec.all q s.
Proof.
  intros Hpq. induction s as [| c s IH]; [reflexivity|].
  intros H. apply all_cons in H. apply all_cons. split; [apply Hpq | apply IH]; tauto.
Qed.


End NumFacts.

(** ** More on [convertColor] and [hexToRgb] *)

Module ColorExtras.

Import StrFacts GrammarFacts NumFacts ColorFacts Colors.

Lemma some_length p d : Spec.some p d -> (1 <= String.length d)%nat.
Proof. intros [Hne _]. destruct d; [contradiction | simpl; lia]. Qed.

Lemma rgbMatch_length m d1 d2 d3 alpha :
  Spec.rgbMatch m d1 d2 d3 alpha -> (10 <= String.length m)%nat.
Proof.
  intros (name & w1 & w2 & tail & -> & Hname & Hd1 & _ & Hd2 & _ & Hd3 & _).
  apply some_length in Hd1, Hd2, Hd3.
  rewrite !length_append. destruct Hname as [-> | ->]; simpl; lia.
Qed.

Lemma exec_short s : (String.length s < 10)%nat -> Re.exec s = None.
Proof.
  intros Hs. destruct (Re.exec s) as [g|] eqn:E; [| reflexivity]. exfalso.
  destruct (exec_sound _ _ E) as (before & m & after & -> & d1 & d2 & d3 & al & Hm).
  apply rgbMatch_length in Hm. rewrite !length_append in Hs. lia.
Qed.

Lemma convertColor_ext s s' :
  parseChannels s = parseChannels s' -> convertColor s = convertColor s'.
Proof. intros H. unfold convertColor. now rewrite H. Qed.

Lemma convertColor_fields s ch :
  parseChannels s = Some ch ->
  exists rec, convertColor s = Some rec
              /\ hex rec = hexOfChannels ch
              /\ hasAlpha rec = definedBelowOne (rgba_a ch).
Proof.
  intros H. unfold convertColor. rewrite H. destruct ch as [r g b a].
  eexists. repeat split.
Qed.

Lemma parseChannels_three c1 c2 c3 :
  parseChannels (String "#" (String c1 (String c2 (String c3 ""))))
  = parseChannels
      (String "#" (String c1 (String c1 (String c2 (String c2
         (String c3 (String c3 ""))))))).
Proof.
  unfold parseChannels. rewrite !exec_short by (simpl; lia). reflexivity.
Qed.


Lemma hexDigits_without_r ds :
  forallb Str.isHexDigit (list_ascii_of_string ds) = true ->
  ~ In "r"%char (list_ascii_of_string ds).
Proof.
  induction ds as [| c ds IH]; simpl; [tauto|].
  intros H. apply andb_prop in H. destruct H as [Hc Hd].
  intros [-> | Hin]; [vm_compute in Hc; discriminate Hc | exact (IH Hd Hin)].
Qed.

Lemma hexGrammar_exec s : Spec.hexGrammar s = true -> Re.exec s = None.
Proof.
  destruct s as [| c ds]; [discriminate|]. unfold Spec.hexGrammar.
  intros H. apply andb_prop in H. destruct H as [H Hd].
  apply andb_prop in H. destruct H as [Hc _]. apply code_eqb in Hc. subst c.
  apply exec_without_r. simpl. intros [H | H]; [discriminate H|].
  exact (hexDigits_without_r ds Hd H).
Qed.

Lemma byteBack_all v : (0 <= v <= 255)%Z -> Expect.byteBack v = true.
Proof.
  intros Hv.
  assert (Hall : forallb Expect.byteBack (map Z.of_nat (seq 0 256)) = true)
    by (vm_compute; reflexivity).
  rewrite forallb_forall in Hall. apply Hall.
  rewrite in_map_iff. exists (Z.to_nat v). split; [lia | apply in_seq; lia].
Qed.

Lemma alphaByte_all v : (0 <= v <= 255)%Z -> Expect.alphaByte v = true.
Proof.
  intros Hv.
  assert (Hall : forallb Expect.alphaByte (map Z.of_nat (seq 0 256)) = true)
    by (vm_compute; reflexivity).
  rewrite forallb_forall in Hall. apply Hall.
  rewrite in_map_iff. exists (Z.to_nat v). split; [lia | apply in_seq; lia].
Qed.

Lemma hexGrammar_shape s :
  Spec.hexGrammar s = true ->
  exists ds, s = String "#" ds
    /\ Forall (fun c => Str.isHexDigit c = true) (list_ascii_of_string ds)
    /\ (String.length ds = 3 \/ String.length ds = 6 \/ String.length ds = 8)%nat.
Proof.
  destruct s as [| c ds]; [discriminate|]. unfold Spec.hexGrammar.
  intros H. apply andb_prop in H. destruct H as [H Hd].
  apply andb_prop in H. destruct H as [Hc Hl]. apply code_eqb in Hc. subst c.
  exists ds. split; [reflexivity | split].
  - apply Forall_forall. now apply forallb_forall.
  - unfold Str.len in Hl. apply orb_prop in Hl. destruct Hl as [Hl | Hl];
      [apply orb_prop in Hl; destruct Hl as [Hl | Hl] |];
      apply Z.eqb_eq in Hl; lia.
Qed.

Ltac hex_digits HF :=
  repeat match type of HF with
         | Forall _ (_ :: _) =>
             let H := fresh "Hx" in
             let HF' := fresh "HF" in
             inversion HF as [| ? ? H HF']; subst; clear HF; rename HF' into HF
         end.

Lemma lowerChar_hexDigit c :
  Str.isHexDigit c = true -> Str.isHexDigit (Str.lowerChar c) = true.
Proof.
  intros H. apply isHexDigit_cases in H.
  unfold Checks.hexDigits in H. cbn [list_ascii_of_string In] in H.
  repeat (destruct H as [H | H]; [subst c; reflexivity |]). contradiction.
Qed.

Lemma toLowerCase_length s : String.length (Str.toLowerCase s) = String.length s.
Proof. induction s as [| c s IH]; simpl; [reflexivity | now rewrite IH]. Qed.

Lemma toLowerCase_hexDigits ds :
  forallb Str.isHexDigit (list_ascii_of_string ds) = true ->
  forallb Str.isHexDigit (list_ascii_of_string (Str.toLowerCase ds)) = true.
Proof.
  induction ds as [| c ds IH]; simpl; [reflexivity|].
  intros H. apply andb_prop in H. destruct H as [Hc Hd].
  now rewrite (lowerChar_hexDigit c Hc), (IH Hd).
Qed.

Lemma sixDigitHex_lower h :
  Spec.sixDigitHex h = true -> Spec.sixDigitHex (Str.toLowerCase h) = true.
Proof.
  destruct h as [| c ds]; [discriminate|]. unfold Spec.sixDigitHex.
  intros H. apply andb_prop in H. destruct H as [H Hd].
  apply andb_prop in H. destruct H as [Hc Hl]. apply code_eqb in Hc. subst c.
  cbn [Str.toLowerCase]. unfold Str.len in *. rewrite toLowerCase_length, Hl.
  now rewrite (toLowerCase_hexDigits ds Hd).
Qed.

Lemma Forall_hexDigits cs :
  Forall (fun c => Str.isHexDigit c = true) cs -> forallb Str.isHexDigit cs = true.
Proof. intros H. apply forallb_forall. now apply Forall_forall. Qed.

(** X1.  [convertColor] gives the 3-digit form [#abc] the result it gives the
    doubled 6-digit form [#aabbcc]: the same record, or [null] for both.
    This holds for any three code units, hexadecimal digits or not. *)
Theorem three_digit_hex_is_its_doubled_form :
  forall c1 c2 c3 : ascii,
    convertColor (String "#" (String c1 (String c2 (String c3 ""))))
    = convertColor
        (String "#" (String c1 (String c1 (String c2 (String c2
           (String c3 (String c3 ""))))))).
Proof.
  intros c1 c2 c3. apply convertColor_ext, parseChannels_three.
Qed.

(** X2.  On a string of the hex grammar ([#] and 3, 6 or 8 hexadecimal
    digits) [convertColor] returns a record whose [hex] is the six-digit form
    of the input in lowercase, so ['#'] and six hexadecimal digits, without
    the alpha; [hasAlpha] holds exactly for an 8-digit form whose last two
    digits are not [ff]. *)
Theorem hex_grammar_gives_six_lowercase_digits :
  forall s,
    Spec.hexGrammar s = true ->
    exists rec,
      convertColor s = Some rec
      /\ hex rec = Str.toLowerCase (Expect.sixDigitForm s)
      /\ Spec.sixDigitHex (hex rec) = true
      /\ (hasAlpha rec = true
          <-> String.length s = 9%nat
              /\ Str.toLowerCase (substring 7 2 s) <> "ff").
Proof.
  intros s H. destruct (hexGrammar_shape s H) as (ds & -> & HF & Hlen).
  assert (Hmain : exists rec,
            convertColor (String "#" ds) = Some rec
            /\ hex rec = Str.toLowerCase (Expect.sixDigitForm (String "#" ds))
            /\ Spec.sixDigitHex (Expect.sixDigitForm (String "#" ds)) = true
            /\ (hasAlpha rec = true
                <-> String.length (String "#" ds) = 9%nat
                    /\ Str.toLowerCase (substring 7 2 (String "#" ds)) <> "ff")).
  2:{ destruct Hmain as (rec & H1 & H2 & H3 & H4). exists rec.
      repeat split; try assumption; try (now apply H4).
      rewrite H2. now apply sixDigitHex_lower. }
  destruct Hlen as [Hl | [Hl | Hl]].
  - (* three digits *)
    destruct ds as [| c1 [| c2 [| c3 [| c4 ds]]]]; simpl in Hl; try lia.
    rewrite (convertColor_ext _ _ (parseChannels_three c1 c2 c3)).
    cbn [list_ascii_of_string] in HF. hex_digits HF.
    assert (Hsix : Spec.sixDigitHex
              (String "#" (String c1 (String c1 (String c2 (String c2
                 (String c3 (String c3 ""))))))) = true).
    { unfold Spec.sixDigitHex. cbn [list_ascii_of_string forallb].
      rewrite Hx, Hx0, Hx1. reflexivity. }
    destruct (convertColor_six_digits _ Hsix) as (rec & Hrec & Hhex & ch & Hp & _).
    destruct (convertColor_fields _ _ Hp) as (rec' & Hrec' & _ & Ha).
    rewrite Hrec in Hrec'. inversion Hrec'; subst rec'.
    exists rec. split; [exact Hrec | split; [exact Hhex | split; [exact Hsix|]]].
    rewrite Ha.
    rewrite (parseChannels_six c1 c1 c2 c2 c3 c3) in Hp
      by (repeat constructor; assumption).
    inversion Hp; subst ch. cbn [rgba_a definedBelowOne].
    split; [discriminate | intros [Hn _]; simpl in Hn; lia].
  - (* six digits *)
    destruct ds as [| c1 [| c2 [| c3 [| c4 [| c5 [| c6 [| c7 ds]]]]]]];
      simpl in Hl; try lia.
    cbn [list_ascii_of_string] in HF.
    assert (Hsix : Spec.sixDigitHex
              (String "#" (String c1 (String c2 (String c3 (String c4
                 (String c5 (String c6 ""))))))) = true).
    { unfold Spec.sixDigitHex. cbn [list_ascii_of_string].
      rewrite (Forall_hexDigits _ HF). reflexivity. }
    destruct (convertColor_six_digits _ Hsix) as (rec & Hrec & Hhex & ch & Hp & _).
    destruct (convertColor_fields _ _ Hp) as (rec' & Hrec' & _ & Ha).
    rewrite Hrec in Hrec'. inversion Hrec'; subst rec'.
    exists rec. split; [exact Hrec | split; [exact Hhex | split; [exact Hsix|]]].
    rewrite Ha. rewrite (parseChannels_six c1 c2 c3 c4 c5 c6 HF) in Hp.
    inversion Hp; subst ch. cbn [rgba_a definedBelowOne].
    split; [discriminate | intros [Hn _]; simpl in Hn; lia].
  - (* eight digits *)
    destruct ds as [| c1 [| c2 [| c3 [| c4 [| c5 [| c6 [| c7 [| c8 [| c9 ds]]]]]]]]];
      simpl in Hl; try lia.
    cbn [list_ascii_of_string] in HF.
    assert (Hp : parseChannels
              (String "#" (String c1 (String c2 (String c3 (String c4
                 (String c5 (String c6 (String c7 (String c8 "")))))))))
            = Some {| rgba_r := Num.parseInt (String c1 (String c2 "")) 16;
                      rgba_g := Num.parseInt (String c3 (String c4 "")) 16;
                      rgba_b := Num.parseInt (String c5 (String c6 "")) 16;
                      rgba_a :=
                        Some (numMap (fun n => inject_Z n / 255)%Q
                                (Num.parseInt (String c7 (String c8 "")) 16)) |}).
    { unfold parseChannels. rewrite hexGrammar_exec by exact H. reflexivity. }
    destruct (convertColor_fields _ _ Hp) as (rec & Hrec & Hhex & Ha).
    hex_digits HF.
    destruct (hex_pair _ _ Hx Hx0) as (v1 & E1 & R1 & P1).
    destruct (hex_pair _ _ Hx1 Hx2) as (v2 & E2 & R2 & P2).
    destruct (hex_pair _ _ Hx3 Hx4) as (v3 & E3 & R3 & P3).
    destruct (hex_pair _ _ Hx5 Hx6) as (v4 & E4 & R4 & P4).
    exists rec. split; [exact Hrec | split; [| split]].
    + rewrite Hhex. unfold hexOfChannels, hexString. cbn [rgba_r rgba_g rgba_b].
      rewrite E1, E2, E3, P1, P2, P3.
      cbn [String.append Str.toLowerCase Expect.sixDigitForm substring].
      now rewrite !lowerChar_idem.
    + unfold Spec.sixDigitHex.
      cbn [Expect.sixDigitForm substring list_ascii_of_string forallb].
      rewrite Hx, Hx0, Hx1, Hx2, Hx3, Hx4. reflexivity.
    + rewrite Ha. cbn [rgba_a]. rewrite E4. cbn [numMap].
      pose proof (alphaByte_all v4 R4) as Hb. unfold Expect.alphaByte in Hb.
      apply Bool.eqb_prop in Hb. rewrite Hb, P4.
      cbn [substring Str.toLowerCase String.length].
      rewrite negb_true_iff. split.
      * intros Hne. split; [reflexivity|]. intros Heq. rewrite Heq in Hne.
        discriminate Hne.
      * intros [_ Hne]. apply String.eqb_neq. exact Hne.
Qed.


Lemma hexOfChannels_back ch :
  Spec.byteChannel (rgba_r ch) = true ->
  Spec.byteChannel (rgba_g ch) = true ->
  Spec.byteChannel (rgba_b ch) = true ->
  parseChannels (hexOfChannels ch)
  = Some (mkRgba (rgba_r ch) (rgba_g ch) (rgba_b ch) None).
Proof.
  destruct ch as [[| r] [| g] [| b] a]; cbn [rgba_r rgba_g rgba_b Spec.byteChannel];
    try discriminate.
  intros Hr Hg Hb.
  apply andb_prop in Hr, Hg, Hb.
  destruct Hr as [Hr1 Hr2], Hg as [Hg1 Hg2], Hb as [Hb1 Hb2].
  apply Z.leb_le in Hr1, Hr2, Hg1, Hg2, Hb1, Hb2.
  pose proof (byteOk_all r (conj Hr1 Hr2)) as Br.
  pose proof (byteOk_all g (conj Hg1 Hg2)) as Bg.
  pose proof (byteOk_all b (conj Hb1 Hb2)) as Bb.
  pose proof (byteBack_all r (conj Hr1 Hr2)) as Kr.
  pose proof (byteBack_all g (conj Hg1 Hg2)) as Kg.
  pose proof (byteBack_all b (conj Hb1 Hb2)) as Kb.
  unfold Checks.byteOk in Br, Bg, Bb. unfold Expect.byteBack in Kr, Kg, Kb.
  unfold hexOfChannels, hexString. cbn [rgba_r rgba_g rgba_b].
  destruct (Str.padStart2 (Num.toString16 (Fin r))) as [| r1 [| r2 [| ? ?]]]; try discriminate.
  destruct (Str.padStart2 (Num.toString16 (Fin g))) as [| g1 [| g2 [| ? ?]]]; try discriminate.
  destruct (Str.padStart2 (Num.toString16 (Fin b))) as [| b1 [| b2 [| ? ?]]]; try discriminate.
  repeat match goal with
         | H : _ && _ = true |- _ => apply andb_prop in H; destruct H
         | H : Ascii.eqb _ _ = true |- _ => apply Ascii.eqb_eq in H
         end.
  cbn [String.append Str.toLowerCase].
  repeat match goal with H : Str.lowerChar ?c = ?c |- _ => rewrite H; clear H end.
  rewrite parseChannels_six by (repeat constructor; assumption).
  destruct (Num.parseInt (String r1 (String r2 "")) 16) as [| r']; [discriminate|].
  destruct (Num.parseInt (String g1 (String g2 "")) 16) as [| g']; [discriminate|].
  destruct (Num.parseInt (String b1 (String b2 "")) 16) as [| b']; [discriminate|].
  apply Z.eqb_eq in Kr, Kg, Kb. now subst.
Qed.

(** X3.  When the channels [convertColor] parsed are integers from 0 to 255,
    [hexToRgb] reads the [hex] of the record back as these channels, without
    alpha; when the input had no alpha, [convertColor] on that [hex] returns
    the whole record again. *)
Theorem hex_field_parses_back_to_the_channels :
  forall x ch rec,
    parseChannels x = Some ch ->
    Spec.byteChannel (rgba_r ch) = true ->
    Spec.byteChannel (rgba_g ch) = true ->
    Spec.byteChannel (rgba_b ch) = true ->
    convertColor x = Some rec ->
    hexToRgb (hex rec) = Some (mkRgba (rgba_r ch) (rgba_g ch) (rgba_b ch) None)
    /\ (rgba_a ch = None -> convertColor (hex rec) = Some rec).
Proof.
  intros x ch rec Hp Hr Hg Hb Hc.
  destruct (convertColor_inv _ _ Hc) as (ch' & Hp' & Hh).
  rewrite Hp in Hp'. inversion Hp'; subst ch'.
  pose proof (hexOfChannels_back ch Hr Hg Hb) as Hback. rewrite <- Hh in Hback.
  split.
  - destruct (hexOfChannels_bytes ch Hr Hg Hb) as [Hsix _]. rewrite <- Hh in Hsix.
    unfold parseChannels in Hback.
    destruct (six_digits_shape _ Hsix) as (c1 & c2 & c3 & c4 & c5 & c6 & Heq & HF).
    rewrite Heq in Hback |- *.
    rewrite exec_short in Hback by (simpl; lia). exact Hback.
  - intros Ha. rewrite <- Hc. apply convertColor_ext. rewrite Hback, Hp.
    destruct ch as [r g b a]. cbn in *. now subst a.
Qed.



Lemma showInt_nat v :
  (0 <= v)%Z ->
  Spec.some Str.isDigit (Num.showInt (Fin v))
  /\ Num.parseInt (Num.showInt (Fin v)) 0 = Fin v.
Proof.
  intros Hv. cbn [Num.showInt].
  destruct (intToString_nonneg 10 v ltac:(lia) Hv) as (Hne & Hall & _).
  split.
  - split; [exact Hne | exact (all_impl _ _ _ decimalDigit_isDigit Hall)].
  - apply parseInt_intToString_nonneg; [right; now split | exact Hv].
Qed.



Lemma hex_grammar_gives_six_lowercase_digits_witness :
  exists rec,
    convertColor "#AbC" = Some rec
    /\ hex rec = Str.toLowerCase (Expect.sixDigitForm "#AbC")
    /\ Spec.sixDigitHex (hex rec) = true
    /\ (hasAlpha rec = true
        <-> String.length "#AbC" = 9%nat
            /\ Str.toLowerCase (substring 7 2 "#AbC") <> "ff").
Proof.
  apply (hex_grammar_gives_six_lowercase_digits "#AbC"). reflexivity.
Defined.

Lemma hex_field_parses_back_to_the_channels_witness :
  exists rec,
    convertColor "rgb(12, 34, 56)" = Some rec
    /\ hexToRgb (hex rec)
       = Some (mkRgba (Fin 12%Z) (Fin 34%Z) (Fin 56%Z) None)
    /\ convertColor (hex rec) = Some rec.
Proof.
  assert (Hp : parseChannels "rgb(12, 34, 56)"
               = Some (mkRgba (Fin 12%Z) (Fin 34%Z) (Fin 56%Z) None))
    by (vm_compute; reflexivity).
  destruct (convertColor_Some _ _ Hp) as (rec & Hrec & _).
  exists rec. split; [exact Hrec |].
  destruct (hex_field_parses_back_to_the_channels
              "rgb(12, 34, 56)" _ rec Hp eq_refl eq_refl eq_refl Hrec)
    as [H1 H2].
  split; [exact H1 | apply H2; reflexivity].
Defined.


(** *** Where the alpha shows *)

(** X5.  In a record of [convertColor], the [lch] and the [oklch] texts
    carry the part [" / alpha"] exactly when [hasAlpha] is true, whereas the
    [rgb] text takes the form [rgba(] whenever an alpha was parsed, also one
    that is not below 1 or not a number; [hasAlpha] needs a parsed alpha. *)
Theorem alpha_shows_in_lch_and_oklch_exactly_when_hasAlpha :
  forall s ch rec,
    parseChannels s = Some ch -> convertColor s = Some rec ->
    (In (Lit " / ") (lch rec) <-> hasAlpha rec = true)
    /\ (In (Lit " / ") (oklch rec) <-> hasAlpha rec = true)
    /\ (hd_error (rgb rec) = Some (Lit "rgba(") <-> rgba_a ch <> None)
    /\ (hasAlpha rec = true -> rgba_a ch <> None).
Proof.
  intros s ch rec.
  intros Hp Hc. unfold convertColor in Hc. rewrite Hp in Hc.
  destruct ch as [r g b a]. injection Hc as <-.
  cbn [lch oklch rgb hasAlpha rgba_a]. unfold formatLch, formatOklch.
  split; [| split; [| split]].
  - destruct (definedBelowOne a).
    + split; [reflexivity | intros _; cbn [In]; tauto].
    + split; [| discriminate]. cbn [In]. intros H.
      repeat (destruct H as [H | H]; [discriminate H|]). destruct H.
  - destruct (definedBelowOne a).
    + split; [reflexivity | intros _; cbn [In]; tauto].
    + split; [| discriminate]. cbn [In]. intros H.
      repeat (destruct H as [H | H]; [discriminate H|]). destruct H.
  - destruct a; cbn [hd_error]; split; intros H; try discriminate;
      try reflexivity. now destruct H.
  - destruct a; [discriminate | discriminate].
Qed.

Lemma alpha_shows_in_lch_and_oklch_exactly_when_hasAlpha_witness :
  exists ch rec,
    parseChannels "rgba(255,0,0,0.5)" = Some ch
    /\ convertColor "rgba(255,0,0,0.5)" = Some rec
    /\ (In (Lit " / ") (lch rec) <-> hasAlpha rec = true)
    /\ (In (Lit " / ") (oklch rec) <-> hasAlpha rec = true)
    /\ (hd_error (rgb rec) = Some (Lit "rgba(") <-> rgba_a ch <> None)
    /\ (hasAlpha rec = true -> rgba_a ch <> None).
Proof.
  destruct (parseChannels "rgba(255,0,0,0.5)") as [ch |] eqn:Hp;
    [| vm_compute in Hp; discriminate Hp].
  destruct (convertColor_Some _ _ Hp) as (rec & Hrec & _).
  exists ch, rec. split; [reflexivity | split; [exact Hrec |]].
  exact (alpha_shows_in_lch_and_oklch_exactly_when_hasAlpha _ _ _ Hp Hrec).
Defined.

End ColorExtras.

(** ** More on the colour spaces *)

Module RealExtras.

Import Arith Colors RealFacts.
Local Open Scope R_scope.



Lemma labToLch_NaN l : labToLch l NaN NaN = mkLch l NaN NaN.
Proof. reflexivity. Qed.







Lemma decode_range x : 0 <= x <= 255 -> 0 <= Spec.decode x <= 1.
Proof.
  intros Hx. unfold Spec.decode.
  destruct (Rle_dec (x / 255) 0.04045) as [Hl | Hl]; [lra|].
  set (base := (x / 255 + 0.055) / 1.055).
  assert (Hb : 0 < base <= 1) by (unfold base; split; lra).
  split; [left; apply Rpower_pos|].
  apply Rpower_24_le; [lra | lra|].
  replace (1 ^ 5) with (1 ^ 12) by lra. apply pow_incr. lra.
Qed.

Lemma f_range t :
  0 <= t <= 1.0000001 -> 0 <= 116 * Spec.f t - 16 <= 100.00001.
Proof.
  intros Ht. unfold Spec.f. destruct (Rlt_dec 0.008856 t) as [H | H].
  - assert (0.2 <= cbrtR t) by (apply cbrtR_le_lower; lra).
    assert (cbrtR t <= 1.00000004) by (apply cbrtR_le_upper; lra).
    lra.
  - lra.
Qed.

Lemma chroma_nonneg a b : 0 <= Spec.chroma a b.
Proof. unfold Spec.chroma. apply sqrt_pos. Qed.

Lemma lch_range r g b :
  0 <= r <= 255 -> 0 <= g <= 255 -> 0 <= b <= 255 ->
  exists L C H,
    rgbToLch (Fin r) (Fin g) (Fin b) = mkLch (Fin L) (Fin C) (Fin H)
    /\ 0 <= L <= 100.00001 /\ 0 <= C /\ 0 <= H < 360.
Proof.
  intros Hr Hg Hb.
  pose proof (decode_range r Hr) as Dr.
  pose proof (decode_range g Hg) as Dg.
  pose proof (decode_range b Hb) as Db.
  pose proof (rgbToLch_Fin r g b) as H.
  cbn [Spec.apply Spec.D65 map Spec.dot Spec.lab] in H. rewrite H.
  eexists _, _, _. split; [reflexivity|].
  split; [| split; [apply chroma_nonneg | apply hue_range]].
  apply f_range. unfold Spec.Yn. lra.
Qed.

Lemma oklch_range r g b :
  0 <= r <= 255 -> 0 <= g <= 255 -> 0 <= b <= 255 ->
  exists L C H,
    rgbToOklch (Fin r) (Fin g) (Fin b) = mkLch (Fin L) (Fin C) (Fin H)
    /\ 0 <= L /\ 0 <= C /\ 0 <= H < 360.
Proof.
  intros Hr Hg Hb.
  pose proof (decode_range r Hr) as Dr.
  pose proof (decode_range g Hg) as Dg.
  pose proof (decode_range b Hb) as Db.
  pose proof (rgbToOklch_Fin r g b) as H. cbv zeta in H. rewrite H.
  eexists _, _, _. split; [reflexivity|].
  split; [| split; [apply chroma_nonneg | apply hue_range]].
  set (x := Spec.decode r) in *. set (y := Spec.decode g) in *.
  set (z := Spec.decode b) in *.
  set (l3 := 0.4122214708 * x + 0.5363325363 * y + 0.0514459929 * z).
  set (m3 := 0.2119034982 * x + 0.6806995451 * y + 0.1073969566 * z).
  set (s3 := 0.0883024619 * x + 0.2817188376 * y + 0.6299787005 * z).
  assert (Hl : 0 <= cbrtR l3) by (apply cbrtR_nonneg; unfold l3; lra).
  assert (Hm : 0 <= cbrtR m3) by (apply cbrtR_nonneg; unfold m3; lra).
  assert (Hs : 0 <= cbrtR s3) by (apply cbrtR_nonneg; unfold s3; lra).
  assert (Hms : 0.5 * cbrtR s3 <= cbrtR m3).
  { apply cube_le; [lra | lra |].
    rewrite Rpow_mult_distr, !cbrtR_cube by (unfold m3, s3; lra).
    unfold m3, s3. lra. }
  lra.
Qed.

(** X8.  For real channels from 0 to 255, [rgbToLch] gives a lightness
    from 0 to 100.00001, a chroma that is not negative and a hue in
    [[0, 360)]; [rgbToOklch] gives a lightness and a chroma that are not
    negative and a hue in [[0, 360)]. *)
Theorem coordinates_of_a_colour_in_gamut_are_in_range :
  forall r g b : R,
    0 <= r <= 255 -> 0 <= g <= 255 -> 0 <= b <= 255 ->
    (exists L C H,
       rgbToLch (Fin r) (Fin g) (Fin b) = mkLch (Fin L) (Fin C) (Fin H)
       /\ 0 <= L <= 100.00001 /\ 0 <= C /\ 0 <= H < 360)
    /\ (exists L C H,
          rgbToOklch (Fin r) (Fin g) (Fin b) = mkLch (Fin L) (Fin C) (Fin H)
          /\ 0 <= L /\ 0 <= C /\ 0 <= H < 360).
Proof.
  intros r g b Hr Hg Hb. split; [now apply lch_range | now apply oklch_range].
Qed.

Lemma coordinates_of_a_colour_in_gamut_are_in_range_witness :
  (exists L C H,
     rgbToLch (Fin 59) (Fin 130) (Fin 246) = mkLch (Fin L) (Fin C) (Fin H)
     /\ 0 <= L <= 100.00001 /\ 0 <= C /\ 0 <= H < 360)
  /\ (exists L C H,
        rgbToOklch (Fin 59) (Fin 130) (Fin 246) = mkLch (Fin L) (Fin C) (Fin H)
        /\ 0 <= L /\ 0 <= C /\ 0 <= H < 360).
Proof.
  apply (coordinates_of_a_colour_in_gamut_are_in_range 59 130 246); lra.
Defined.

End RealExtras.

(** ** More on [displayColors] *)

Module DisplayExtras.

Import StrFacts Display DisplayInput DisplayFacts.

(** *** The confidence of an entry *)

Lemma find_None_key l k :
  find (fun c => String.eqb (keyOf c) k) l = None ->
  forall c, In c l -> keyOf c <> k.
Proof.
  intros H c Hc Hk. apply (find_none _ _ H) in Hc.
  rewrite Hk, String.eqb_refl in Hc. discriminate.
Qed.

Lemma get_None_key l k :
  get k (dedupe l) = None -> forall c, In c l -> keyOf c <> k.
Proof.
  intros H. pose proof (dedupe_first l k) as F. rewrite H in F.
  now apply find_None_key.
Qed.

Lemma confidence_merged e c :
  confidence (merged e c) = Spec.maxConfidence (confidence e) (confidence c).
Proof. unfold merged. cbn. now rewrite <- maxConfidence_merge. Qed.

Lemma confidence_is_max l : forall k e,
  get k (dedupe l) = Some e ->
  (forall c, In c l -> keyOf c = k ->
     (confidenceOrder (confidence c) <= confidenceOrder (confidence e))%Z)
  /\ exists c, In c l /\ keyOf c = k /\ confidence c = confidence e.
Proof.
  induction l as [| c l IH] using rev_ind; intros k e H.
  - discriminate.
  - rewrite dedupe_snoc in H.
    destruct (String.eqb_spec (keyOf c) k) as [Hk | Hk].
    + subst k. rewrite get_visit_same in H. injection H as <-.
      destruct (get (keyOf c) (dedupe l)) as [e0 |] eqn:G.
      * destruct (IH _ _ G) as [Hle [c0 [Hin [Hk0 Hc0]]]].
        rewrite confidence_merged.
        pose proof (maxConfidence_ge (confidence e0) (confidence c))
          as [M1 [M2 [M3 _]]].
        split.
        -- intros c' Hc' Hk'. apply in_app_or in Hc' as [Hc' | [<- | []]].
           ++ specialize (Hle c' Hc' Hk'). lia.
           ++ exact M2.
        -- destruct M3 as [M3 | M3]; rewrite M3.
           ++ exists c0. rewrite in_app_iff. tauto.
           ++ exists c. rewrite in_app_iff. cbn. tauto.
      * split.
        -- intros c' Hc' Hk'. apply in_app_or in Hc' as [Hc' | [<- | []]].
           ++ now destruct (get_None_key l _ G c' Hc').
           ++ lia.
        -- exists c. rewrite in_app_iff. cbn. tauto.
    + rewrite get_visit_other in H by exact Hk.
      destruct (IH _ _ H) as [Hle [c0 [Hin [Hk0 Hc0]]]]. split.
      * intros c' Hc' Hk'. apply in_app_or in Hc' as [Hc' | [<- | []]].
        -- now apply Hle.
        -- contradiction.
      * exists c0. rewrite in_app_iff. tauto.
Qed.



(** *** What [displayColors] shows *)

Lemma firstOccurrences_length ks :
  (length (Spec.firstOccurrences ks) <= length ks)%nat.
Proof.
  induction ks as [| k ks IH]; cbn; [lia|].
  pose proof (filter_length_le (fun x => negb (String.eqb x k))
                (Spec.firstOccurrences ks)). lia.
Qed.

Lemma uniqueColors_length l : (length (uniqueColors l) <= length l)%nat.
Proof.
  unfold uniqueColors, values. rewrite length_map.
  rewrite <- (length_map fst). change (map fst (dedupe l)) with (keys (dedupe l)).
  rewrite keys_dedupe. pose proof (firstOccurrences_length (map keyOf l)) as H.
  now rewrite length_map in H.
Qed.

Lemma semanticColors_high colors c :
  In c (semanticColors colors) -> confidence c = high.
Proof.
  unfold semanticColors. destruct (c_semantic colors) as [entries |]; [| intros []].
  rewrite in_flat_map. intros [[role [color |]] [_ H]]; cbn in H; [| destruct H].
  destruct (truthy color); [| destruct H]. destruct H as [<- | []]. reflexivity.
Qed.

Lemma variableColors_high colors c :
  In c (variableColors colors) -> confidence c = high.
Proof.
  unfold variableColors. destruct (c_cssVariables colors) as [entries |]; [| intros []].
  rewrite in_flat_map. intros [[name varData] [_ H]]; cbn in H.
  destruct (colorValue varData); [| destruct H]. destruct H as [<- | []].
  reflexivity.
Qed.

Lemma In_firstn {A} (x : A) n : forall l, In x (firstn n l) -> In x l.
Proof.
  induction n as [| n IH]; intros [| a l]; cbn; try tauto.
  intros [H | H]; [now left | right; now apply IH].
Qed.

Lemma paletteColors_shown colors c :
  In c (paletteColors colors) -> highOrMedium (confidence c) = true.
Proof.
  unfold paletteColors. destruct (c_palette colors) as [entries |]; [| intros []].
  rewrite in_map_iff. intros [p [<- H]]. cbn.
  apply In_firstn in H. apply filter_In in H. tauto.
Qed.

Lemma allColors_shown colors c :
  In c (allColors colors) -> highOrMedium (confidence c) = true.
Proof.
  unfold allColors. rewrite !in_app_iff. intros [H | [H | H]].
  - now rewrite (semanticColors_high _ _ H).
  - now rewrite (variableColors_high _ _ H).
  - now apply paletteColors_shown in H.
Qed.

Lemma flat_map_length_le {A B} (f : A -> list B) l :
  (forall x, length (f x) <= 1)%nat -> (length (flat_map f l) <= length l)%nat.
Proof.
  intros H. induction l as [| x l IH]; cbn; [lia|].
  rewrite length_app. specialize (H x). lia.
Qed.

Lemma semanticColors_length colors :
  (length (semanticColors colors) <= length (Expect.elements (c_semantic colors)))%nat.
Proof.
  unfold semanticColors. destruct (c_semantic colors) as [entries |]; cbn; [| lia].
  apply flat_map_length_le. intros [role [color |]]; cbn; [| lia].
  destruct (truthy color); cbn; lia.
Qed.

Lemma variableColors_length colors :
  (length (variableColors colors)
   <= Nat.min 15 (length (Expect.elements (c_cssVariables colors))))%nat.
Proof.
  unfold variableColors.
  destruct (c_cssVariables colors) as [entries |]; cbn [Expect.elements length];
    [| lia].
  rewrite <- (length_firstn 15 entries). apply flat_map_length_le.
  intros [name varData]; cbn. destruct (colorValue varData); cbn; lia.
Qed.

Lemma paletteColors_length colors :
  (length (paletteColors colors)
   <= Nat.min 20 (length (Expect.elements (c_palette colors))))%nat.
Proof.
  unfold paletteColors.
  destruct (c_palette colors) as [entries |]; cbn [Expect.elements length];
    [| lia].
  rewrite length_map, length_firstn.
  pose proof (filter_length_le (fun c => highOrMedium (p_confidence c)) entries).
  lia.
Qed.

Lemma displayed_shown colors :
  Forall (fun e => highOrMedium (confidence e) = true) (displayedColors colors).
Proof.
  apply Forall_forall. intros e He.
  assert (G : get (keyOf e) (dedupe (allColors colors)) = Some e)
    by (apply In_values_get; [apply wellKeyed_dedupe | exact He]).
  destruct (confidence_is_max _ _ _ G) as [_ [c [Hc [_ <-]]]].
  now apply allColors_shown in Hc.
Qed.

Lemma displayed_length colors :
  (length (displayedColors colors)
   <= length (Expect.elements (c_semantic colors)) + 35)%nat.
Proof.
  unfold displayedColors.
  pose proof (uniqueColors_length (allColors colors)) as H.
  unfold allColors in *. rewrite !length_app in H.
  pose proof (semanticColors_length colors).
  pose proof (variableColors_length colors).
  pose proof (paletteColors_length colors). lia.
Qed.

(** X12.  [displayColors] never shows a colour of low confidence, and shows
    at most as many colours as there are semantic roles, plus 15 CSS
    variables, plus 20 palette colours. *)
Theorem displayed_colours_are_never_low_and_are_bounded :
  forall colors,
    Forall (fun e => highOrMedium (confidence e) = true) (displayedColors colors)
    /\ (length (displayedColors colors)
        <= length (Expect.elements (c_semantic colors)) + 35)%nat.
Proof.
  intros colors. split; [apply displayed_shown | apply displayed_length].
Qed.

(** X14.  The number in the line "+N more in JSON" never exceeds the number
    of CSS variables and palette colours that did not enter [allColors]:
    entries and [remaining] together are at most the inputs. *)
Theorem remaining_never_exceeds_the_inputs_left_out :
  forall colors,
    (Z.of_nat (length (variableColors colors) + length (paletteColors colors))
     + remaining colors
     <= Z.of_nat (length (Expect.elements (c_cssVariables colors))
                  + length (Expect.elements (c_palette colors))))%Z.
Proof.
  intros colors.
  pose proof (variableColors_length colors) as V.
  pose proof (paletteColors_length colors) as P.
  unfold remaining.
  destruct (c_cssVariables colors) as [vs |], (c_palette colors) as [ps |];
    cbn [Expect.elements length] in *; lia.
Qed.

(** *** A list without collisions *)

Lemma set_new k v m : ~ In k (keys m) -> set k v m = (m ++ [(k, v)])%list.
Proof.
  induction m as [| [k' w] m IH]; cbn; intros H; [reflexivity|].
  destruct (String.eqb_spec k' k) as [-> | Hk]; [tauto|].
  rewrite IH by tauto. reflexivity.
Qed.

Lemma not_In_get k m : ~ In k (keys m) -> get k m = None.
Proof.
  intros H. apply has_false_get. rewrite has_mem.
  destruct (mem k (keys m)) eqn:E; [| reflexivity].
  now apply mem_In in E.
Qed.

Lemma fold_visit_fresh l : forall m,
  NoDup (map keyOf l) ->
  (forall c, In c l -> ~ In (keyOf c) (keys m)) ->
  fold_left visit l m = (m ++ map (fun c => (keyOf c, c)) l)%list.
Proof.
  induction l as [| c l IH]; intros m ND Hm; cbn.
  - now rewrite app_nil_r.
  - inversion ND as [| ? ? Hc ND']; subst.
    rewrite visit_new by (apply not_In_get, Hm; now left).
    rewrite set_new by (apply Hm; now left).
    rewrite IH.
    + now rewrite <- app_assoc.
    + exact ND'.
    + intros c' Hc'. unfold keys. rewrite map_app, in_app_iff. cbn.
      intros [H | [H | []]].
      * apply (Hm c'); [now right | exact H].
      * apply Hc. rewrite H. now apply in_map.
Qed.

Lemma uniqueColors_fixed l : NoDup (map keyOf l) -> uniqueColors l = l.
Proof.
  intros ND. unfold uniqueColors, dedupe.
  rewrite fold_visit_fresh; [| exact ND | intros c _ []].
  cbn. unfold values. rewrite map_map. cbn. apply map_id.
Qed.

Lemma uniqueColors_NoDup l : NoDup (map keyOf (uniqueColors l)).
Proof.
  unfold uniqueColors. rewrite values_keys by apply wellKeyed_dedupe.
  apply wellKeyed_dedupe.
Qed.

(** X11.  The deduplication leaves a list without two colours of one key as
    it is, and so running it on its own output changes nothing. *)
Theorem deduplication_is_idempotent :
  (forall allColors,
     NoDup (map keyOf allColors) -> uniqueColors allColors = allColors)
  /\ (forall allColors,
        uniqueColors (uniqueColors allColors) = uniqueColors allColors).
Proof.
  split; [exact uniqueColors_fixed|].
  intros l. apply uniqueColors_fixed, uniqueColors_NoDup.
Qed.

(** *** The label of an entry *)

Lemma split_plain s : forall cur,
  Expect.hasCommaSpace s = false ->
  Str.splitCommaSpaceFrom cur s = [string_of_list_ascii (rev cur) ++ s].
Proof.
  induction s as [| c t IH]; intros cur H.
  - cbn. now rewrite append_empty_r.
  - cbn [Expect.hasCommaSpace] in H. apply orb_false_iff in H as [H1 H2].
    cbn [Str.splitCommaSpaceFrom]. destruct t as [| d u].
    + cbn [Str.splitCommaSpaceFrom]. rewrite string_of_rev_cons. reflexivity.
    + assert (E : (Str.code c =? 44)%Z && (Str.code d =? 32)%Z = false).
      { cbn in H1. rewrite andb_true_r in H1.
        destruct (Str.code c =? 44)%Z eqn:Ec; [| reflexivity].
        destruct (Str.code d =? 32)%Z eqn:Ed; [| reflexivity].
        apply Z.eqb_eq in Ec, Ed.
        change 44%Z with (Str.code ","%char) in Ec.
        change 32%Z with (Str.code " "%char) in Ed.
        apply code_inj in Ec, Ed. subst. discriminate. }
      rewrite E, IH by exact H2.
      rewrite string_of_rev_cons, append_assoc. reflexivity.
Qed.

Lemma split_append n : forall a b cur,
  (String.length a <= n)%nat ->
  Str.splitCommaSpaceFrom cur (a ++ ", " ++ b)
  = (Str.splitCommaSpaceFrom cur a ++ Str.splitCommaSpace b)%list.
Proof.
  induction n as [| n IH]; intros a b cur Hn.
  - destruct a; [| cbn in Hn; lia]. reflexivity.
  - destruct a as [| c [| d u]].
    + reflexivity.
    + cbn. destruct (Str.code c =? 44)%Z; reflexivity.
    + cbn [append Str.splitCommaSpaceFrom].
      destruct ((Str.code c =? 44)%Z && (Str.code d =? 32)%Z).
      * cbn [app]. f_equal. apply (IH u b []). cbn in Hn. lia.
      * apply (IH (String d u) b (c :: cur)). cbn in Hn. cbn. lia.
Qed.

Lemma split_snoc a b :
  Expect.hasCommaSpace b = false ->
  Str.splitCommaSpace (a ++ ", " ++ b) = (Str.splitCommaSpace a ++ [b])%list.
Proof.
  intros H. unfold Str.splitCommaSpace at 1.
  rewrite (split_append (String.length a)) by lia.
  unfold Str.splitCommaSpace. rewrite (split_plain b) by exact H. reflexivity.
Qed.

Lemma firstOccurrences_snoc x : forall L,
  Spec.firstOccurrences (L ++ [x])
  = if mem x L then Spec.firstOccurrences L
    else (Spec.firstOccurrences L ++ [x])%list.
Proof.
  induction L as [| a L IH]; [reflexivity|].
  cbn [app Spec.firstOccurrences mem existsb]. rewrite IH.
  fold (mem x L).
  destruct (String.eqb_spec x a) as [-> | Hxa]; cbn [orb].
  - destruct (mem a L); [reflexivity|].
    rewrite filter_app. cbn. rewrite String.eqb_refl. cbn.
    now rewrite app_nil_r.
  - destruct (mem x L); [reflexivity|].
    rewrite filter_app. cbn.
    destruct (String.eqb_spec x a); [contradiction|]. reflexivity.
Qed.

Lemma mem_firstOccurrences x L : mem x (Spec.firstOccurrences L) = mem x L.
Proof.
  apply eq_true_iff_eq. rewrite !mem_In. apply firstOccurrences_In.
Qed.

Lemma labelsOf_other k c l :
  keyOf c <> k -> Expect.labelsOf k (l ++ [c]) = Expect.labelsOf k l.
Proof.
  intros H. unfold Expect.labelsOf. rewrite filter_app. cbn.
  destruct (String.eqb_spec (keyOf c) k); [contradiction|].
  now rewrite app_nil_r.
Qed.

Lemma labelsOf_same c l :
  Expect.labelsOf (keyOf c) (l ++ [c])
  = if truthy (label c)
    then if mem (label c) (Expect.labelsOf (keyOf c) l)
         then Expect.labelsOf (keyOf c) l
         else (Expect.labelsOf (keyOf c) l ++ [label c])%list
    else Expect.labelsOf (keyOf c) l.
Proof.
  unfold Expect.labelsOf. rewrite filter_app. cbn [filter].
  rewrite String.eqb_refl, map_app, filter_app. cbn [map filter].
  destruct (truthy (label c)).
  - rewrite firstOccurrences_snoc, mem_firstOccurrences. reflexivity.
  - now rewrite app_nil_r.
Qed.

Lemma labelsOf_truthy k l x : In x (Expect.labelsOf k l) -> truthy x = true.
Proof.
  unfold Expect.labelsOf. rewrite firstOccurrences_In, filter_In. tauto.
Qed.

Lemma labelsOf_none k l :
  (forall c, In c l -> keyOf c <> k) -> Expect.labelsOf k l = [].
Proof.
  intros H. unfold Expect.labelsOf.
  replace (filter (fun c => String.eqb (keyOf c) k) l) with (@nil Color);
    [reflexivity|].
  symmetry. induction l as [| c l IH]; [reflexivity|]. cbn.
  destruct (String.eqb_spec (keyOf c) k) as [E | _].
  - destruct (H c (or_introl eq_refl) E).
  - apply IH. intros c' Hc'. apply H. now right.
Qed.

Lemma truthy_false s : truthy s = false -> s = "".
Proof. destruct s; [reflexivity | discriminate]. Qed.

Lemma label_merged e c : label (merged e c) = mergeLabels e c.
Proof. reflexivity. Qed.

Lemma labels_of_entry l :
  (forall c, In c l -> Expect.hasCommaSpace (label c) = false) ->
  forall k e,
    get k (dedupe l) = Some e ->
    (Expect.labelsOf k l = [] /\ label e = "")
    \/ (Expect.labelsOf k l <> []
        /\ Str.splitCommaSpace (label e) = Expect.labelsOf k l).
Proof.
  induction l as [| c l IH] using rev_ind; intros Hall k e H; [discriminate|].
  assert (Hl : forall c', In c' l -> Expect.hasCommaSpace (label c') = false).
  { intros c' Hc'. apply Hall. rewrite in_app_iff. now left. }
  assert (Hc : Expect.hasCommaSpace (label c) = false).
  { apply Hall. rewrite in_app_iff. right. now left. }
  specialize (IH Hl). rewrite dedupe_snoc in H.
  destruct (String.eqb_spec (keyOf c) k) as [Hk | Hk].
  - subst k. rewrite get_visit_same in H. injection H as <-.
    rewrite labelsOf_same.
    destruct (get (keyOf c) (dedupe l)) as [e0 |] eqn:G.
    + specialize (IH _ _ G). rewrite label_merged. unfold mergeLabels.
      destruct (truthy (label c)) eqn:Tc; cbn [andb].
      * destruct (truthy (label e0)) eqn:Te; cbn [negb andb].
        -- destruct IH as [[_ E] | [Hne Hs]].
           ++ rewrite E in Te. discriminate.
           ++ rewrite Hs. change (Str.includes (label c)) with (mem (label c)).
              destruct (mem (label c) (Expect.labelsOf (keyOf c) l)); cbn [negb].
              ** right. now split.
              ** right. split; [now destruct (Expect.labelsOf (keyOf c) l)|].
                 rewrite split_snoc by exact Hc. now rewrite Hs.
        -- apply truthy_false in Te. destruct IH as [[E _] | [Hne Hs]].
           ++ rewrite E. cbn. right. split; [discriminate|].
              unfold Str.splitCommaSpace. now rewrite split_plain.
           ++ rewrite Te in Hs. cbn in Hs.
              assert (T : truthy "" = true).
              { apply (labelsOf_truthy (keyOf c) l). rewrite <- Hs. now left. }
              discriminate.
      * exact IH.
    + rewrite (labelsOf_none (keyOf c) l) by now apply get_None_key.
      destruct (truthy (label c)) eqn:Tc; cbn.
      * right. split; [discriminate|].
        unfold Str.splitCommaSpace. now rewrite split_plain.
      * left. split; [reflexivity | now apply truthy_false].
  - rewrite get_visit_other in H by exact Hk.
    rewrite labelsOf_other by exact Hk. now apply IH.
Qed.

Lemma firstOccurrences_NoDup ks : NoDup (Spec.firstOccurrences ks).
Proof.
  induction ks as [| k ks IH]; cbn; constructor.
  - rewrite filter_In, String.eqb_refl. cbn. intros [_ H]. discriminate.
  - now apply NoDup_filter.
Qed.

(** X10.  When no label holds the separator [", "], the label of an entry
    is the non-empty labels of the colours with its key, each once, in the
    order of their first occurrence, joined by [", "]; its pieces are
    duplicate-free. *)
Theorem entry_label_joins_the_labels_of_its_colours :
  forall allColors e,
    (forall c, In c allColors -> Expect.hasCommaSpace (label c) = false) ->
    In e (uniqueColors allColors) ->
    label e = Spec.joinCommaSpace (Expect.labelsOf (keyOf e) allColors)
    /\ NoDup (Str.splitCommaSpace (label e)).
Proof.
  intros l e.
  intros Hall He.
  assert (G : get (keyOf e) (dedupe l) = Some e).
  { apply In_values_get; [apply wellKeyed_dedupe | exact He]. }
  destruct (labels_of_entry l Hall _ _ G) as [[E1 E2] | [_ E]].
  - rewrite E1, E2. cbn. split; [reflexivity|].
    constructor; [intros [] | constructor].
  - rewrite <- E. split; [symmetry; apply join_split|].
    rewrite E. apply firstOccurrences_NoDup.
Qed.

Lemma entry_label_joins_the_labels_of_its_colours_witness :
  "Primary, Accent" = Spec.joinCommaSpace (Expect.labelsOf "#ff0000" [red1; red2])
  /\ NoDup (Str.splitCommaSpace "Primary, Accent").
Proof.
  apply (entry_label_joins_the_labels_of_its_colours [red1; red2]
           (setLabel "Primary, Accent" (setConfidence high red1))).
  - intros c [<- | [<- | []]]; reflexivity.
  - vm_compute. left. reflexivity.
Defined.

(** *** The source of an entry *)

Lemma find_key cs k :
  match find (fun c => String.eqb (keyOf c) k) cs with
  | Some x => In x cs /\ keyOf x = k
  | None => ~ Expect.hasKey k cs
  end.
Proof.
  destruct (find _ cs) as [x |] eqn:F.
  - apply find_some in F as [H1 H2]. split; [exact H1|].
    now apply String.eqb_eq.
  - intros [c [Hc Hk]]. exact (find_None_key cs k F c Hc Hk).
Qed.

Lemma semanticColors_type colors c :
  In c (semanticColors colors) -> type c = semantic.
Proof.
  unfold semanticColors. destruct (c_semantic colors) as [entries |]; [| intros []].
  rewrite in_flat_map. intros [[role [color |]] [_ H]]; cbn in H; [| destruct H].
  destruct (truthy color); [| destruct H]. destruct H as [<- | []]. reflexivity.
Qed.

Lemma variableColors_type colors c :
  In c (variableColors colors) -> type c = variable.
Proof.
  unfold variableColors. destruct (c_cssVariables colors) as [entries |]; [| intros []].
  rewrite in_flat_map. intros [[name varData] [_ H]]; cbn in H.
  destruct (colorValue varData); [| destruct H]. destruct H as [<- | []].
  reflexivity.
Qed.

Lemma paletteColors_type colors c :
  In c (paletteColors colors) -> type c = palette /\ label c = "".
Proof.
  unfold paletteColors. destruct (c_palette colors) as [entries |]; [| intros []].
  rewrite in_map_iff. intros [p [<- _]]. now split.
Qed.

(** X13.  The type of a shown entry is the first source, in the order
    semantic, variable, palette, that holds a colour with the entry's key. *)
Theorem entry_shows_the_first_source_in_priority_order :
  forall colors e,
    In e (displayedColors colors) ->
    (type e = semantic <-> Expect.hasKey (keyOf e) (semanticColors colors))
    /\ (type e = variable
        <-> ~ Expect.hasKey (keyOf e) (semanticColors colors)
            /\ Expect.hasKey (keyOf e) (variableColors colors))
    /\ (type e = palette
        <-> ~ Expect.hasKey (keyOf e) (semanticColors colors)
            /\ ~ Expect.hasKey (keyOf e) (variableColors colors)).
Proof.
  intros colors e.
  intros He.
  assert (G : get (keyOf e) (dedupe (allColors colors)) = Some e).
  { apply In_values_get; [apply wellKeyed_dedupe | exact He]. }
  pose proof (dedupe_first (allColors colors) (keyOf e)) as F.
  rewrite G in F. destruct F as [first [F [_ [_ [_ [_ [_ T]]]]]]].
  unfold allColors in F. rewrite !find_app in F.
  pose proof (find_key (semanticColors colors) (keyOf e)) as S.
  pose proof (find_key (variableColors colors) (keyOf e)) as V.
  pose proof (find_key (paletteColors colors) (keyOf e)) as P.
  destruct (find _ (semanticColors colors)) as [x |].
  - injection F as <-. destruct S as [S1 S2].
    rewrite T, (semanticColors_type _ _ S1).
    assert (Expect.hasKey (keyOf e) (semanticColors colors)) by now exists x.
    repeat split; try tauto; try discriminate.
  - destruct (find _ (variableColors colors)) as [x |].
    + injection F as <-. destruct V as [V1 V2].
      rewrite T, (variableColors_type _ _ V1).
      assert (Expect.hasKey (keyOf e) (variableColors colors)) by now exists x.
      repeat split; try tauto; try discriminate.
    + destruct (find _ (paletteColors colors)) as [x |]; [| discriminate].
      injection F as <-. destruct P as [P1 P2].
      rewrite T. destruct (paletteColors_type _ _ P1) as [-> _].
      repeat split; try tauto; try discriminate.
Qed.

Lemma entry_shows_the_first_source_in_priority_order_witness :
  (semantic = semantic <-> Expect.hasKey "tomato" (semanticColors sampleColors))
  /\ (semantic = variable
      <-> ~ Expect.hasKey "tomato" (semanticColors sampleColors)
          /\ Expect.hasKey "tomato" (variableColors sampleColors))
  /\ (semantic = palette
      <-> ~ Expect.hasKey "tomato" (semanticColors sampleColors)
          /\ ~ Expect.hasKey "tomato" (variableColors sampleColors)).
Proof.
  apply (entry_shows_the_first_source_in_priority_order sampleColors
           (mkColor "tomato" [Colors.Lit "tomato"] [Colors.Lit "tomato"]
              [Colors.Lit "tomato"] false "primary" semantic high)).
  vm_compute. left. reflexivity.
Defined.

End DisplayExtras.

(** ** [figma-exporter.js] *)

Module FigmaFacts.

Import StrFacts GrammarFacts NumFacts ColorFacts ColorExtras.

(** *** [hexToFigmaRgb] against [hexToRgb] *)

Lemma removeHash_hash t : Figma.removeHash (String "#" t) = t.
Proof. reflexivity. Qed.

Lemma substring_none s : substring 0 0 s = "".
Proof. now destruct s. Qed.

Lemma figma_long c1 c2 c3 c4 c5 c6 rest :
  Forall (fun c => Str.isHexDigit c = true) [c1; c2; c3; c4; c5; c6] ->
  exists r g b : Z,
    Num.parseInt (String c1 (String c2 "")) 16 = Fin r
    /\ Num.parseInt (String c3 (String c4 "")) 16 = Fin g
    /\ Num.parseInt (String c5 (String c6 "")) 16 = Fin b
    /\ Figma.hexToFigmaRgb
         (String "#" (String c1 (String c2 (String c3 (String c4 (String c5
            (String c6 rest)))))))
       = Figma.mkRgb (Fin (inject_Z r / 255)%Q) (Fin (inject_Z g / 255)%Q)
           (Fin (inject_Z b / 255)%Q)
    /\ (0 <= r <= 255)%Z /\ (0 <= g <= 255)%Z /\ (0 <= b <= 255)%Z.
Proof.
  intros HF. hex_digits HF.
  destruct (hex_pair c1 c2) as (r & Hr & Br & _); [assumption .. |].
  destruct (hex_pair c3 c4) as (g & Hg & Bg & _); [assumption .. |].
  destruct (hex_pair c5 c6) as (b & Hb & Bb & _); [assumption .. |].
  exists r, g, b. repeat split; try assumption; try lia.
  unfold Figma.hexToFigmaRgb. rewrite removeHash_hash.
  cbn [Str.slice substring Nat.sub]. rewrite substring_none.
  rewrite Hr, Hg, Hb. reflexivity.
Qed.

Lemma hexToRgb_long c1 c2 c3 c4 c5 c6 rest :
  String.length rest = 0%nat \/ String.length rest = 2%nat ->
  exists a,
    Colors.hexToRgb
      (String "#" (String c1 (String c2 (String c3 (String c4 (String c5
         (String c6 rest)))))))
    = Some {| Colors.rgba_r := Num.parseInt (String c1 (String c2 "")) 16;
              Colors.rgba_g := Num.parseInt (String c3 (String c4 "")) 16;
              Colors.rgba_b := Num.parseInt (String c5 (String c6 "")) 16;
              Colors.rgba_a := a |}.
Proof.
  intros [H | H].
  - destruct rest; [| discriminate]. eexists. reflexivity.
  - destruct rest as [| c7 [| c8 [| c9 rest]]]; try discriminate.
    eexists. reflexivity.
Qed.

(** X16.  On the 6- and 8-digit forms of the hex grammar, [hexToFigmaRgb]
    gives the channels that [hexToRgb] parses, divided by 255; they are
    integers from 0 to 255, so the result is in 0..1, and the alpha digits
    are ignored. *)
Theorem figma_rgb_is_the_parsed_channels_over_255 :
  forall h,
    Spec.hexGrammar h = true -> String.length h <> 4%nat ->
    exists (r g b : Z) a,
      Colors.hexToRgb h = Some (Colors.mkRgba (Fin r) (Fin g) (Fin b) a)
      /\ Figma.hexToFigmaRgb h
         = Figma.mkRgb (Fin (inject_Z r / 255)%Q) (Fin (inject_Z g / 255)%Q)
             (Fin (inject_Z b / 255)%Q)
      /\ (0 <= r <= 255)%Z /\ (0 <= g <= 255)%Z /\ (0 <= b <= 255)%Z.
Proof.
  intros h.
  intros H Hlen. destruct (hexGrammar_shape h H) as (ds & -> & HF & Hl).
  destruct ds as [| c1 [| c2 [| c3 [| c4 [| c5 [| c6 rest]]]]]];
    cbn [String.length] in Hl, Hlen; try lia.
  cbn [list_ascii_of_string] in HF.
  assert (HF6 : Forall (fun c => Str.isHexDigit c = true) [c1; c2; c3; c4; c5; c6]).
  { hex_digits HF. repeat constructor; assumption. }
  destruct (figma_long c1 c2 c3 c4 c5 c6 rest HF6)
    as (r & g & b & Hr & Hg & Hb & Hfig & Br & Bg & Bb).
  destruct (hexToRgb_long c1 c2 c3 c4 c5 c6 rest) as [a Ha]; [lia|].
  exists r, g, b, a. rewrite Ha, Hr, Hg, Hb. repeat split; try assumption; lia.
Qed.

Lemma figma_rgb_is_the_parsed_channels_over_255_witness :
  exists (r g b : Z) a,
    Colors.hexToRgb "#3b82f6" = Some (Colors.mkRgba (Fin r) (Fin g) (Fin b) a)
    /\ Figma.hexToFigmaRgb "#3b82f6"
       = Figma.mkRgb (Fin (inject_Z r / 255)%Q) (Fin (inject_Z g / 255)%Q)
           (Fin (inject_Z b / 255)%Q)
    /\ (0 <= r <= 255)%Z /\ (0 <= g <= 255)%Z /\ (0 <= b <= 255)%Z.
Proof.
  apply (figma_rgb_is_the_parsed_channels_over_255 "#3b82f6");
    [reflexivity | discriminate].
Defined.

(** X17.  [anyColorToHex] returns a 3-digit hex as it is, and
    [hexToFigmaRgb] does not expand it: its blue is [NaN], although
    [hexToRgb] parses three channels from the same string. *)
Theorem figma_rgb_of_a_three_digit_hex_has_no_blue :
  forall h,
    Spec.hexGrammar h = true -> String.length h = 4%nat ->
    Figma.anyColorToHex h = h
    /\ Figma.f_b (Figma.hexToFigmaRgb (Figma.anyColorToHex h)) = NaN
    /\ exists r g b : Z,
         Colors.hexToRgb h = Some (Colors.mkRgba (Fin r) (Fin g) (Fin b) None).
Proof.
  intros h.
  intros H Hlen. destruct (hexGrammar_shape h H) as (ds & -> & HF & _).
  destruct ds as [| c1 [| c2 [| c3 [| c4 rest]]]]; try discriminate.
  assert (E : Figma.anyColorToHex (String "#" (String c1 (String c2 (String c3 ""))))
              = String "#" (String c1 (String c2 (String c3 "")))) by reflexivity.
  rewrite E. split; [reflexivity | split; [reflexivity|]].
  cbn [list_ascii_of_string] in HF. hex_digits HF.
  destruct (hex_pair c1 c1) as (r & Hr & _); [assumption .. |].
  destruct (hex_pair c2 c2) as (g & Hg & _); [assumption .. |].
  destruct (hex_pair c3 c3) as (b & Hb & _); [assumption .. |].
  exists r, g, b. rewrite <- Hr, <- Hg, <- Hb. reflexivity.
Qed.

Lemma figma_rgb_of_a_three_digit_hex_has_no_blue_witness :
  Figma.anyColorToHex "#abc" = "#abc"
  /\ Figma.f_b (Figma.hexToFigmaRgb (Figma.anyColorToHex "#abc")) = NaN
  /\ exists r g b : Z,
       Colors.hexToRgb "#abc" = Some (Colors.mkRgba (Fin r) (Fin g) (Fin b) None).
Proof.
  apply (figma_rgb_of_a_three_digit_hex_has_no_blue "#abc"); reflexivity.
Defined.

(** *** [anyColorToHex] *)














(** *** Font weights *)

(** X20.  [mapFontWeightToStyle] gives a weight that is not negative the
    same style as a number and as its decimal text; and the default
    [|| 400] of [transformToFigmaFormat] does not change the style that the
    text of the weight gets. *)
Theorem font_weight_style_ignores_the_form_of_the_weight :
  (forall n : Z,
     (0 <= n)%Z ->
     Figma.mapFontWeightToStyle (Figma.WString (Num.showInt (Fin n)))
     = Figma.mapFontWeightToStyle (Figma.WNumber (Fin n)))
  /\ (forall fontWeight : string,
        Figma.mapFontWeightToStyle
          (Figma.WNumber (Figma.fontWeightOr400 fontWeight))
        = Figma.mapFontWeightToStyle (Figma.WString fontWeight)).
Proof.
  split.
  - intros n Hn. unfold Figma.mapFontWeightToStyle.
    now rewrite (proj2 (showInt_nat n Hn)).
  - intros s. unfold Figma.mapFontWeightToStyle, Figma.fontWeightOr400.
    destruct (Num.parseInt s 0) as [| [| p | p]]; reflexivity.
Qed.

(** *** CSS variables *)






End FigmaFacts.

(** ** The branches of the printed tree *)

Module TreeFacts.

Local Open Scope nat_scope.

Lemma last_index n :
  map (fun index => index =? n) (seq 0 (S n)) = (repeat false n ++ [true])%list.
Proof.
  rewrite seq_S, map_app. cbn [map Nat.add]. rewrite Nat.eqb_refl. f_equal.
  assert (H : forall k, k <= n ->
            map (fun index => index =? n) (seq 0 k) = repeat false k).
  { induction k as [| k IH]; intros Hk; [reflexivity|].
    rewrite seq_S, map_app, IH by lia. cbn [map Nat.add].
    destruct (Nat.eqb_spec k n); [lia|].
    clear. induction k; [reflexivity|]. cbn. now f_equal. }
  now apply H.
Qed.

(** X15.  [displayShadows] prints the closing branch once, on its last
    line, whatever the number of shadows; [displayBorders] prints it on the
    last combination shown and, when there are more than 10, once more on
    the line "+N more". *)
Theorem shadows_close_the_tree_once_borders_twice_when_cut :
  (forall n, 0 < n ->
     Tree.shadowLines n = (repeat false (Nat.min n 9 - 1) ++ [true])%list)
  /\ (forall n, 0 < n ->
        Tree.borderLines n
        = (repeat false (Nat.min n 10 - 1) ++ [true]
           ++ if 10 <? n then [true] else [])%list).
Proof.
  split; intros n Hn.
  - unfold Tree.shadowLines.
    destruct (Nat.leb_spec n 8) as [H | H].
    + destruct (Nat.ltb_spec 8 n); [lia|].
      rewrite Nat.min_l, app_nil_r by lia.
      replace (Nat.min n 9) with n by lia.
      destruct n as [| n]; [lia|].
      replace (S n - 1) with n by lia.
      rewrite <- last_index. apply map_ext. intros i. now rewrite andb_true_r.
    + destruct (Nat.ltb_spec 8 n); [| lia].
      rewrite Nat.min_r by lia. replace (Nat.min n 9) with 9 by lia. reflexivity.
  - unfold Tree.borderLines.
    destruct (Nat.min n 10) as [| k] eqn:E; [lia|].
    replace (S k - 1) with k by lia. now rewrite last_index, <- app_assoc.
Qed.

End TreeFacts.
